(** * Christmastime: particle tree and accent star

    A shallow embedding of [InteractiveTree.tsx] (particle generation and the
    per-frame instance transforms) and [FloatingOrnaments.tsx] (the star on
    top of the tree), with the properties the specification states of them.

    Numbers.  A JavaScript [number] is modelled as a real number: arithmetic
    is exact, there is no rounding, no NaN and no infinity.  [Math.sin],
    [Math.cos], [Math.sqrt], [Math.acos] and [Math.PI] are the functions of
    the Standard Library's reals; [Math.cbrt] and [Math.pow] are defined from
    [Rpower] below.

    Randomness.  [Math.random] is modelled by the stream of values that its
    successive calls return, [rng : nat -> R], and a counter of the calls made
    so far that the generator threads through its draws. *)

From Stdlib Require Import Reals Lra Lia List ZArith.
Import ListNotations.

Open Scope R_scope.

(** ** JavaScript [Math] functions over the reals *)

Module JsMath.

(** [Math.cbrt]: the real cube root, odd in its argument. *)
Definition cbrt (x : R) : R :=
  if Rlt_dec 0 x then Rpower x (1 / 3)
  else if Rlt_dec x 0 then - Rpower (- x) (1 / 3)
  else 0.

(** [Math.pow x y] for a base [x >= 0] and an exponent [y > 0], the only
    use the generator makes of it: [0] at [x = 0], [exp (y * ln x)] above. *)
Definition pow (x y : R) : R :=
  if Rlt_dec 0 x then Rpower x y else 0.

End JsMath.

(** ** Data model *)

(** [THREE.Vector3] and [THREE.Euler] (default order), by their components. *)
Record Vector3 : Type := mkVector3 { vx : R; vy : R; vz : R }.
Record Euler : Type := mkEuler { ex : R; ey : R; ez : R }.

(** The entries of [PALETTE]. *)
Inductive Color : Type :=
| GOLD_BRIGHT | GOLD_CHAMPAGNE | GOLD_DEEP | WHITE
| MORANDI | AMBER | PINK | BROWN.

(** The [type] argument of [generateParticles]. *)
Inductive ParticleType : Type := sphere | cube | gem.

(** [TreeMorphState], the two-valued enum of [../types]. *)
Inductive TreeMorphState : Type := SCATTERED | TREE_SHAPE.

(** [ParticleData & { color }], the record pushed for each particle. *)
Record Particle : Type := mkParticle {
  scatterPosition : Vector3;
  scatterRotation : Euler;
  treePosition : Vector3;
  treeRotation : Euler;
  scale : R;
  speed : R;
  color : Color
}.

(** The outcome of calling a JavaScript function: it returns a value or
    throws. *)
Inductive Outcome (A : Type) : Type :=
| Returned (a : A)
| Thrown (message : nat).
Arguments Returned {A} a.
Arguments Thrown {A} message.

(** ** Drawing from [Math.random] *)

Module Rand.

(** A computation that makes calls to [Math.random]: from the stream of
    values and the number of calls made so far, to a result and the new
    number of calls. *)
Definition M (A : Type) : Type := (nat -> R) -> nat -> A * nat.

Definition ret {A} (a : A) : M A := fun _ k => (a, k).

Definition bind {A B} (m : M A) (f : A -> M B) : M B :=
  fun rng k => let (a, k') := m rng k in f a rng k'.

(** One call of [Math.random()]. *)
Definition random : M R := fun rng k => (rng k, S k).

(** The values are those of [Math.random]: in [0, 1). *)
Definition uniform (rng : nat -> R) : Prop := forall k, 0 <= rng k < 1.

End Rand.

Declare Scope rand_scope.
Delimit Scope rand_scope with rand.
Notation "x <- m ;; f" := (Rand.bind m (fun x => f))
  (at level 61, m at next level, right associativity) : rand_scope.

(** ** [generateParticles] *)

(** The colour mixing of [generateParticles], on the draw [rand]. *)
Definition pickColor (type : ParticleType) (rand : R) : Color :=
  match type with
  | sphere =>
      if Rlt_dec rand 0.30 then MORANDI
      else if Rlt_dec rand 0.55 then WHITE
      else if Rlt_dec rand 0.70 then GOLD_CHAMPAGNE
      else if Rlt_dec rand 0.85 then PINK
      else if Rlt_dec rand 0.95 then BROWN
      else GOLD_BRIGHT
  | cube =>
      if Rlt_dec rand 0.25 then GOLD_BRIGHT
      else if Rlt_dec rand 0.45 then GOLD_DEEP
      else if Rlt_dec rand 0.60 then WHITE
      else if Rlt_dec rand 0.75 then MORANDI
      else if Rlt_dec rand 0.85 then BROWN
      else GOLD_CHAMPAGNE
  | gem =>
      if Rlt_dec rand 0.4 then AMBER
      else if Rlt_dec rand 0.7 then WHITE
      else if Rlt_dec rand 0.85 then GOLD_BRIGHT
      else PINK
  end.

Definition treeHeight : R := 13.
Definition maxBaseRadius : R := 5.5.

(** The scatter position, from the three draws in the order the code makes
    them. *)
Definition scatterPos (u1 u2 u3 : R) : Vector3 :=
  let r := 22 * JsMath.cbrt u1 in
  let theta := u2 * 2 * PI in
  let phi := acos (2 * u3 - 1) in
  mkVector3 (r * sin phi * cos theta) (r * sin phi * sin theta) (r * cos phi).

(** The intermediate values of the tree position. *)
Definition hNormal (u4 : R) : R := JsMath.pow u4 1.2.
Definition treeY (u4 : R) : R :=
  - treeHeight / 2 + (hNormal u4 * treeHeight) + 1.
Definition radiusAtHeight (u4 : R) : R := (1 - hNormal u4) * maxBaseRadius.
Definition pileRadius (u4 u5 : R) : R :=
  radiusAtHeight u4 * (0.2 + 0.8 * sqrt u5).
Definition pileAngle (u6 : R) : R := u6 * PI * 2.

Definition treePos (u4 u5 u6 : R) : Vector3 :=
  mkVector3 (pileRadius u4 u5 * cos (pileAngle u6))
            (treeY u4)
            (pileRadius u4 u5 * sin (pileAngle u6)).

Open Scope rand_scope.

(** The body of the [for] loop: thirteen draws, in source order. *)
Definition genParticle (type : ParticleType) : Rand.M Particle :=
  u1 <- Rand.random ;;
  u2 <- Rand.random ;;
  u3 <- Rand.random ;;
  u4 <- Rand.random ;;
  u5 <- Rand.random ;;
  u6 <- Rand.random ;;
  rand <- Rand.random ;;
  sx <- Rand.random ;;
  sy <- Rand.random ;;
  tx <- Rand.random ;;
  ty <- Rand.random ;;
  us <- Rand.random ;;
  uv <- Rand.random ;;
  Rand.ret {|
    scatterPosition := scatterPos u1 u2 u3;
    scatterRotation := mkEuler (sx * PI) (sy * PI) 0;
    treePosition := treePos u4 u5 u6;
    treeRotation := mkEuler (tx * PI) (ty * PI) 0;
    scale := 0.5 + us * 0.8;
    speed := 0.5 + uv * 0.5;
    color := pickColor type rand
  |}.

(** [for (let i = 0; i < count; i++) { ...; data.push(...) }], with [n] the
    number of iterations still to run. *)
Fixpoint genLoop (type : ParticleType) (n : nat) (data : list Particle)
  : Rand.M (list Particle) :=
  match n with
  | O => Rand.ret data
  | S n' => p <- genParticle type ;; genLoop type n' (data ++ [p])
  end.

Close Scope rand_scope.

(** The particle that the loop body generates when [k] draws have been made
    before it. *)
Definition particleAt (type : ParticleType) (rng : nat -> R) (k : nat)
  : Particle :=
  fst (genParticle type rng k).

(** [count] is taken among the integers.  The loop body runs while
    [i < count], from [i = 0]: [Z.to_nat count] times, none for [count <= 0].
    The function has no [throw]: it always returns [data]. *)
Definition generateParticles (count : Z) (type : ParticleType)
  (rng : nat -> R) : Outcome (list Particle) :=
  Returned (fst (genLoop type (Z.to_nat count) [] rng 0%nat)).

(** ** Interpolation (three.js) *)

(** Modelled from the spec: [THREE.MathUtils.lerp] is three.js code, absent
    from the repository's sources.  Sections 4.4 and 4.5 call it [lerp], the
    linear interpolation from [x] at [t = 0] to [y] at [t = 1]; three.js
    computes it as below. *)
Definition lerp (x y t : R) : R := (1 - t) * x + t * y.

(** Modelled from the spec: [THREE.Vector3.lerpVectors] is three.js code,
    absent from the repository's sources.  Section 4.4:
    [lerp(scatterPosition_i, treePosition_i, t)], componentwise from [v1] at
    [alpha = 0] to [v2] at [alpha = 1]; three.js computes it as below. *)
Definition lerpVectors (v1 v2 : Vector3) (alpha : R) : Vector3 :=
  mkVector3 (vx v1 + (vx v2 - vx v1) * alpha)
            (vy v1 + (vy v2 - vy v1) * alpha)
            (vz v1 + (vz v2 - vz v1) * alpha).

(** ** The blend target *)

(** [state === TreeMorphState.TREE_SHAPE ? 1 : 0]. *)
Definition targetBlend (state : TreeMorphState) : R :=
  match state with
  | TREE_SHAPE => 1
  | SCATTERED => 0
  end.

(** ** The per-particle computation of [animateMesh] *)

(** The values computed in the body of [data.forEach((particle, i) => ...)],
    at blend value [t] and [elapsedTime] of the clock. *)
Definition noiseX (elapsedTime : R) (particle : Particle) (i : nat) (t : R)
  : R :=
  sin (elapsedTime * speed particle + INR i) * 0.2 * (1 - t).

Definition noiseY (elapsedTime : R) (particle : Particle) (i : nat) (t : R)
  : R :=
  cos (elapsedTime * speed particle * 0.5 + INR i) * 0.2 * (1 - t).

(** [TEMP_V3] after [lerpVectors], [x += noiseX] and [y += noiseY]. *)
Definition instancePosition (elapsedTime : R) (particle : Particle) (i : nat)
  (t : R) : Vector3 :=
  let v := lerpVectors (scatterPosition particle) (treePosition particle) t in
  mkVector3 (vx v + noiseX elapsedTime particle i t)
            (vy v + noiseY elapsedTime particle i t)
            (vz v).

Definition breathe (elapsedTime : R) (i : nat) : R :=
  1 + 0.1 * sin (elapsedTime * 2 + INR i).

(** The argument of [DUMMY.scale.setScalar]. *)
Definition instanceScale (elapsedTime : R) (particle : Particle) (i : nat)
  : R :=
  scale particle * breathe elapsedTime i.

(** ** The libraries the frame callbacks call *)

(** What the two [useFrame] callbacks take from maath and from three.js'
    quaternions, neither among the repository's sources.
    [easing.damp(ref, 'current', target, smoothTime, delta)] updates the
    object [ref] in place; the callbacks read its [current] only. *)
Class External : Type := {
  BlendRef : Type;
  current : BlendRef -> R;
  damp : BlendRef -> R -> R -> R -> BlendRef;
  Quaternion : Type;
  setFromEuler : Euler -> Quaternion;
  slerpQuaternions : Quaternion -> Quaternion -> R -> Quaternion
}.

(** Update of a buffer at an index; nothing is written out of range. *)
Fixpoint setAt {A : Type} (i : nat) (a : A) (l : list A) : list A :=
  match l, i with
  | [], _ => []
  | _ :: l', O => a :: l'
  | x :: l', S i' => x :: setAt i' a l'
  end.

Section Frame.

Context {E : External}.

(** What [DUMMY.updateMatrix()] composes the instance matrix from. *)
Record Transform : Type := mkTransform {
  position : Vector3;
  quaternion : Quaternion;
  scaleScalar : R
}.

(** The fields of a [THREE.InstancedMesh] that the callback touches.  The
    colour buffer is taken as allocated (three.js allocates it at the first
    [setColorAt]). *)
Record InstancedMesh : Type := mkInstancedMesh {
  rotation_y : R;
  instanceMatrix : list Transform;
  instanceMatrixNeedsUpdate : bool;
  instanceColor : list Color;
  instanceColorNeedsUpdate : bool
}.

(** One iteration of [data.forEach]: the transform and the colour written
    at index [i]. *)
Definition particleTransform (elapsedTime t : R) (particle : Particle)
  (i : nat) : Transform :=
  let qScatter := setFromEuler (scatterRotation particle) in
  let qTree := setFromEuler (treeRotation particle) in
  {| position := instancePosition elapsedTime particle i t;
     quaternion := slerpQuaternions qScatter qTree t;
     scaleScalar := instanceScale elapsedTime particle i |}.

(** [data.forEach] from index [i] on, over the two instance buffers. *)
Fixpoint forEachParticle (elapsedTime t : R) (data : list Particle) (i : nat)
  (buffers : list Transform * list Color) : list Transform * list Color :=
  match data with
  | [] => buffers
  | particle :: rest =>
      forEachParticle elapsedTime t rest (S i)
        (setAt i (particleTransform elapsedTime t particle i) (fst buffers),
         setAt i (color particle) (snd buffers))
  end.

(** [animateMesh(mesh, data)]; a [null] mesh is left alone.  The colour
    buffer being taken as allocated, the test [if (mesh.instanceColor)]
    passes; a mesh whose colour buffer is still [null] is outside this
    model. *)
Definition animateMesh (elapsedTime delta t : R)
  (mesh : option InstancedMesh) (data : list Particle)
  : option InstancedMesh :=
  match mesh with
  | None => None
  | Some m =>
      let buffers :=
        forEachParticle elapsedTime t data 0%nat
          (instanceMatrix m, instanceColor m) in
      Some {| rotation_y := rotation_y m + delta * 0.05;
              instanceMatrix := fst buffers;
              instanceMatrixNeedsUpdate := true;
              instanceColor := snd buffers;
              instanceColorNeedsUpdate := true |}
  end.

(** The state of [InteractiveTree] across frames. *)
Record TreeScene : Type := mkTreeScene {
  blendRef : BlendRef;
  sphereRef : option InstancedMesh;
  cubeRef : option InstancedMesh;
  gemRef : option InstancedMesh;
  spheres : list Particle;
  cubes : list Particle;
  gems : list Particle
}.

(** The [useFrame] callback of [InteractiveTree]. *)
Definition treeFrame (state : TreeMorphState) (elapsedTime delta : R)
  (s : TreeScene) : TreeScene :=
  let blend := damp (blendRef s) (targetBlend state) 1.2 delta in
  let t := current blend in
  {| blendRef := blend;
     sphereRef := animateMesh elapsedTime delta t (sphereRef s) (spheres s);
     cubeRef := animateMesh elapsedTime delta t (cubeRef s) (cubes s);
     gemRef := animateMesh elapsedTime delta t (gemRef s) (gems s);
     spheres := spheres s;
     cubes := cubes s;
     gems := gems s |}.

(** The fields of the star's group that the callback touches. *)
Record Star : Type := mkStar {
  position_y : R;
  starScale : R;
  starRotation_y : R
}.

(** The state of [FloatingOrnaments] across frames; [materialRef] holds the
    material's [emissiveIntensity]. *)
Record StarScene : Type := mkStarScene {
  starBlendRef : BlendRef;
  starRef : option Star;
  materialRef : option R
}.

(** The [useFrame] callback of [FloatingOrnaments]. *)
Definition starFrame (state : TreeMorphState) (elapsedTime delta : R)
  (s : StarScene) : StarScene :=
  match starRef s with
  | None => s
  | Some star =>
      let blend := damp (starBlendRef s) (targetBlend state) 1.0 delta in
      let t := current blend in
      let treeTopY := 8.2 in
      let scatterY := 15 in
      let y := lerp scatterY treeTopY t in
      let scale := lerp 0 1.2 t in
      {| starBlendRef := blend;
         starRef :=
           Some {| position_y := y + sin (elapsedTime * 2) * 0.05;
                   starScale := scale;
                   starRotation_y := starRotation_y star + delta * 0.8 |};
         materialRef :=
           match materialRef s with
           | None => None
           | Some _ => Some (0.8 + sin (elapsedTime * 2) * 0.4)
           end |}
  end.

End Frame.

Arguments Transform : clear implicits.
Arguments InstancedMesh : clear implicits.
Arguments TreeScene : clear implicits.
Arguments StarScene : clear implicits.

(** ** The damped advance, as the specification gives it *)

Module SpecDamp.

(** Modelled from the spec: [easing.damp] is code of the maath package,
    absent from the repository's sources.  Section 4.3:
    [value' = target + (value - target) * exp(-dt / timeConstant)]. *)
Definition advance (value target timeConstant dt : R) : R :=
  target + (value - target) * exp (- dt / timeConstant).

(** The blend value after one frame of each controller: the [easing.damp]
    call of [InteractiveTree] (time constant 1.2) and that of
    [FloatingOrnaments] (time constant 1.0). *)
Definition treeAdvance (state : TreeMorphState) (value dt : R) : R :=
  advance value (targetBlend state) 1.2 dt.

Definition starAdvance (state : TreeMorphState) (value dt : R) : R :=
  advance value (targetBlend state) 1.0 dt.

(** The frame callbacks over this advance: the blend object holds its
    value only, and rotations are not followed. *)
Definition external : External :=
  {| BlendRef := R;
     current := fun value => value;
     damp := advance;
     Quaternion := unit;
     setFromEuler := fun _ => tt;
     slerpQuaternions := fun _ _ _ => tt |}.

(** A star scene and a tree scene over it, at rest in the scattered state:
    the star mounted at height 15 with scale 0, turned by 2; one sphere
    group mounted, with no instance, not turned. *)
Definition starAtRest : StarScene external :=
  mkStarScene (E := external) 0 (Some (mkStar 15 0 2)) None.

(** The same with the star's material mounted, at emissive intensity 1. *)
Definition starLit : StarScene external :=
  mkStarScene (E := external) 0 (Some (mkStar 15 0 2)) (Some 1).

Definition treeAtRest : TreeScene external :=
  mkTreeScene (E := external) 0
    (Some (mkInstancedMesh (E := external) 0 [] false [] false))
    None None [] [] [].

End SpecDamp.

(** ** The colour tables, as the specification gives them *)

Module ColorSpec.

(** Section 4.2: per class, the ordered list of colours with their
    cumulative bounds.  Morandi, White, PaleGold, Pink, Brown, BrightGold,
    DeepGold and Amber are [MORANDI], [WHITE], [GOLD_CHAMPAGNE], [PINK],
    [BROWN], [GOLD_BRIGHT], [GOLD_DEEP] and [AMBER] of [PALETTE]. *)
Definition table (type : ParticleType) : list (Color * R) :=
  match type with
  | sphere =>
      [(MORANDI, 0.30); (WHITE, 0.55); (GOLD_CHAMPAGNE, 0.70);
       (PINK, 0.85); (BROWN, 0.95); (GOLD_BRIGHT, 1.00)]
  | cube =>
      [(GOLD_BRIGHT, 0.25); (GOLD_DEEP, 0.45); (WHITE, 0.60);
       (MORANDI, 0.75); (BROWN, 0.85); (GOLD_CHAMPAGNE, 1.00)]
  | gem =>
      [(AMBER, 0.40); (WHITE, 0.70); (GOLD_BRIGHT, 0.85); (PINK, 1.00)]
  end.

(** The first colour of a table whose cumulative bound exceeds [u]. *)
Fixpoint firstExceeding (tbl : list (Color * R)) (u : R) : option Color :=
  match tbl with
  | [] => None
  | (c, bound) :: rest =>
      if Rlt_dec u bound then Some c else firstExceeding rest u
  end.

(** The colour of the last row. *)
Definition lastColor (type : ParticleType) : Color :=
  match type with
  | sphere => GOLD_BRIGHT
  | cube => GOLD_CHAMPAGNE
  | gem => PINK
  end.

End ColorSpec.

(** ** The groups of [InteractiveTree] *)

(** [COUNTS]. *)
Definition COUNTS_SPHERES : Z := 600.
Definition COUNTS_CUBES : Z := 600.
Definition COUNTS_GEMS : Z := 300.

(** A call of [generateParticles] made when [Math.random] has already been
    called: the same loop, from the current number of calls. *)
Definition generateParticlesFrom (count : Z) (type : ParticleType)
  : Rand.M (list Particle) :=
  genLoop type (Z.to_nat count) [].

Open Scope rand_scope.

(** The [useMemo] of [InteractiveTree]: the three groups, generated one
    after the other. *)
Definition generateGroups
  : Rand.M (list Particle * list Particle * list Particle) :=
  spheres <- generateParticlesFrom COUNTS_SPHERES sphere ;;
  cubes <- generateParticlesFrom COUNTS_CUBES cube ;;
  gems <- generateParticlesFrom COUNTS_GEMS gem ;;
  Rand.ret (spheres, cubes, gems).

Close Scope rand_scope.

(** ** Successive frames *)

(** What a frame callback receives: the [state] prop of the render it
    belongs to, [stateThree.clock.elapsedTime] and [delta]. *)
Record Tick : Type := mkTick {
  tickState : TreeMorphState;
  tickElapsedTime : R;
  tickDelta : R
}.

(** The sum of the delta-times of a run of frames. *)
Definition totalDelta (ticks : list Tick) : R :=
  fold_right (fun tick total => tickDelta tick + total) 0 ticks.

Section Frames.

Context {E : External}.

(** The [useFrame] callbacks, called once per frame, in order. *)
Definition treeFrames (ticks : list Tick) (s : TreeScene E) : TreeScene E :=
  fold_left
    (fun s tick =>
       treeFrame (tickState tick) (tickElapsedTime tick) (tickDelta tick) s)
    ticks s.

Definition starFrames (ticks : list Tick) (s : StarScene E) : StarScene E :=
  fold_left
    (fun s tick =>
       starFrame (tickState tick) (tickElapsedTime tick) (tickDelta tick) s)
    ticks s.

End Frames.

(** ** The star's outline *)

Module StarGeometry.

Definition points : nat := 5.
Definition outerRadius : R := 1.
Definition innerRadius : R := 0.5.

(** The point computed at iteration [i] of the loop of [starGeometry]. *)
Definition vertex (i : nat) : R * R :=
  let angle := (INR i * PI) / INR points in
  let radius := if (i mod 2 =? 0)%nat then outerRadius else innerRadius in
  (cos angle * radius, sin angle * radius).

(** The calls made on the [THREE.Shape]. *)
Inductive PathCommand : Type :=
| MoveTo (x y : R)
| LineTo (x y : R)
| ClosePath.

(** [for (let i = 0; i < points * 2; i++)]: [moveTo] at [i = 0], [lineTo]
    after; then [closePath]. *)
Definition shape : list PathCommand :=
  map (fun i =>
         let (x, y) := vertex i in
         if (i =? 0)%nat then MoveTo x y else LineTo x y)
      (seq 0 (points * 2))
  ++ [ClosePath].

End StarGeometry.

(** ** The toggle of [App] *)

(** [useState(TreeMorphState.SCATTERED)]. *)
Definition initialTreeState : TreeMorphState := SCATTERED.

(** The updater of [handleToggle]. *)
Definition handleToggle (prev : TreeMorphState) : TreeMorphState :=
  match prev with
  | SCATTERED => TREE_SHAPE
  | TREE_SHAPE => SCATTERED
  end.

(** The state after [n] presses of the toggle. *)
Definition afterToggles (n : nat) : TreeMorphState :=
  Nat.iter n handleToggle initialTreeState.

(** * Properties *)

(** ** Ranges of the [Math] functions on a draw *)

Lemma pow_range (u y : R) : 0 <= u < 1 -> 0 < y -> 0 <= JsMath.pow u y < 1.
Proof.
  intros [Hu0 Hu1] Hy. unfold JsMath.pow.
  destruct (Rlt_dec 0 u) as [Hpos | _]; [| lra].
  unfold Rpower. split.
  - left. apply exp_pos.
  - rewrite <- exp_0. apply exp_increasing.
    assert (Hln : ln u < 0) by (rewrite <- ln_1; apply ln_increasing; lra).
    nra.
Qed.

Lemma sqrt_range (u : R) : 0 <= u < 1 -> 0 <= sqrt u < 1.
Proof.
  intros [Hu0 Hu1]. split.
  - apply sqrt_pos.
  - rewrite <- sqrt_1. apply sqrt_lt_1; lra.
Qed.

(** ** The generator's loop *)

Lemma genParticle_draws type rng k :
  snd (genParticle type rng k) = (k + 13)%nat.
Proof. unfold genParticle, Rand.bind, Rand.random, Rand.ret. simpl. lia. Qed.

Lemma genParticle_eq type rng k :
  genParticle type rng k = (particleAt type rng k, (k + 13)%nat).
Proof.
  unfold particleAt. rewrite <- (genParticle_draws type rng k).
  destruct (genParticle type rng k); reflexivity.
Qed.

Lemma genLoop_spec type rng n : forall data k,
  fst (genLoop type n data rng k) =
  data ++ map (fun j => particleAt type rng (k + 13 * j)) (seq 0 n).
Proof.
  induction n as [| n IH]; intros data k.
  - simpl. now rewrite app_nil_r.
  - cbn [genLoop]. unfold Rand.bind at 1. rewrite genParticle_eq.
    rewrite IH. rewrite <- app_assoc. f_equal.
    cbn [seq map app]. f_equal.
    + f_equal. lia.
    + rewrite <- seq_shift, map_map. apply map_ext. intros j. f_equal. lia.
Qed.

Lemma generateParticles_eq count type rng :
  generateParticles count type rng =
  Returned (map (fun i => particleAt type rng (13 * i))
              (seq 0 (Z.to_nat count))).
Proof.
  unfold generateParticles. now rewrite genLoop_spec.
Qed.

Lemma generateParticles_nth count type rng ps i p :
  generateParticles count type rng = Returned ps ->
  nth_error ps i = Some p ->
  p = particleAt type rng (13 * i).
Proof.
  rewrite generateParticles_eq. intros Heq Hnth. injection Heq as <-.
  rewrite nth_error_map in Hnth.
  destruct (nth_error (seq 0 (Z.to_nat count)) i) as [j |] eqn:Hj;
    [| discriminate].
  injection Hnth as <-.
  assert (Hlt : (i < length (seq 0 (Z.to_nat count)))%nat)
    by (apply nth_error_Some; congruence).
  rewrite length_seq in Hlt.
  rewrite (nth_error_nth' _ 0%nat) in Hj by (now rewrite length_seq).
  rewrite seq_nth in Hj by assumption. injection Hj as <-. reflexivity.
Qed.

(** The fields of the particle generated from draw [k] on. *)
Lemma particleAt_fields type rng k :
  particleAt type rng k =
  {| scatterPosition := scatterPos (rng k) (rng (k + 1)%nat) (rng (k + 2)%nat);
     scatterRotation := mkEuler (rng (k + 7)%nat * PI) (rng (k + 8)%nat * PI) 0;
     treePosition :=
       treePos (rng (k + 3)%nat) (rng (k + 4)%nat) (rng (k + 5)%nat);
     treeRotation := mkEuler (rng (k + 9)%nat * PI) (rng (k + 10)%nat * PI) 0;
     scale := 0.5 + rng (k + 11)%nat * 0.8;
     speed := 0.5 + rng (k + 12)%nat * 0.5;
     color := pickColor type (rng (k + 6)%nat) |}.
Proof.
  unfold particleAt, genParticle, Rand.bind, Rand.random, Rand.ret. cbn [fst].
  replace (S k) with (k + 1)%nat by lia.
  replace (S (k + 1)) with (k + 2)%nat by lia.
  replace (S (k + 2)) with (k + 3)%nat by lia.
  replace (S (k + 3)) with (k + 4)%nat by lia.
  replace (S (k + 4)) with (k + 5)%nat by lia.
  replace (S (k + 5)) with (k + 6)%nat by lia.
  replace (S (k + 6)) with (k + 7)%nat by lia.
  replace (S (k + 7)) with (k + 8)%nat by lia.
  replace (S (k + 8)) with (k + 9)%nat by lia.
  replace (S (k + 9)) with (k + 10)%nat by lia.
  replace (S (k + 10)) with (k + 11)%nat by lia.
  replace (S (k + 11)) with (k + 12)%nat by lia.
  reflexivity.
Qed.

(** Every generated particle satisfies what every [particleAt] does. *)
Lemma generateParticles_all (P : nat -> Particle -> Prop) count type rng :
  (forall i, P i (particleAt type rng (13 * i))) ->
  exists ps,
    generateParticles count type rng = Returned ps /\
    length ps = Z.to_nat count /\
    forall i p, nth_error ps i = Some p -> P i p.
Proof.
  intros HP. eexists. split; [apply generateParticles_eq |]. split.
  - now rewrite length_map, length_seq.
  - intros i p Hnth.
    rewrite (generateParticles_nth count type rng _ i p
               (generateParticles_eq count type rng) Hnth).
    apply HP.
Qed.

(** ** Counts *)

(** C4, as the code has it: for every count that is negative or zero the
    generator returns the empty group, not an error. *)
Theorem generateParticles_nonpositive_count (count : Z) type rng :
  (count <= 0)%Z ->
  generateParticles count type rng = Returned [].
Proof.
  intros Hc. rewrite generateParticles_eq.
  replace (Z.to_nat count) with 0%nat by lia. reflexivity.
Qed.

Lemma generateParticles_nonpositive_count_witness :
  generateParticles (-3) cube (fun _ => 1 / 2) = Returned [].
Proof.
  apply (generateParticles_nonpositive_count (-3) cube (fun _ => 1 / 2)).
  lia.
Defined.

(** C4 fails as stated: a request for -1 spheres is not rejected, it returns
    the empty group. *)
Lemma generateParticles_negative_not_rejected :
  generateParticles (-1) sphere (fun _ => 0) = Returned [].
Proof. reflexivity. Qed.

(** A group of two has the particles of draws 0..12 and 13..25. *)
Example generateParticles_two type rng :
  generateParticles 2 type rng =
  Returned [particleAt type rng 0; particleAt type rng 13].
Proof. rewrite generateParticles_eq. reflexivity. Qed.

(** ** Ranges of the stored fields *)

Lemma generated_scale_speed_range_aux (count : Z) type rng :
  Rand.uniform rng ->
  exists ps,
    generateParticles count type rng = Returned ps /\
    length ps = Z.to_nat count /\
    forall i p, nth_error ps i = Some p ->
      0.5 <= scale p < 1.3 /\ 0.5 <= speed p < 1.0.
Proof.
  intros Hrng.
  apply (generateParticles_all
           (fun _ p => 0.5 <= scale p < 1.3 /\ 0.5 <= speed p < 1.0)).
  intros i. rewrite particleAt_fields. cbn [scale speed].
  pose proof (Hrng (13 * i + 11)%nat). pose proof (Hrng (13 * i + 12)%nat).
  lra.
Qed.

(** C7: every particle of every generated group has its scale in [0.5, 1.3]
    and its speed (the noise phase speed) in [0.5, 1.0]. *)
Theorem generated_scale_speed_range (count : Z) type rng :
  Rand.uniform rng ->
  exists ps,
    generateParticles count type rng = Returned ps /\
    length ps = Z.to_nat count /\
    forall i p, nth_error ps i = Some p ->
      0.5 <= scale p <= 1.3 /\ 0.5 <= speed p <= 1.0.
Proof.
  intros Hrng.
  destruct (generated_scale_speed_range_aux count type rng Hrng)
    as (ps & Hgen & Hlen & Hall).
  exists ps. split; [assumption |]. split; [assumption |].
  intros i p Hnth. destruct (Hall i p Hnth). lra.
Qed.

Lemma generated_scale_speed_range_witness :
  exists ps,
    generateParticles 2 gem (fun _ => 1 / 2) = Returned ps /\
    length ps = Z.to_nat 2 /\
    forall i p, nth_error ps i = Some p ->
      0.5 <= scale p <= 1.3 /\ 0.5 <= speed p <= 1.0.
Proof.
  apply (generated_scale_speed_range 2 gem (fun _ => 1 / 2)).
  intros k. lra.
Defined.

(** C10: in every generated particle both Euler rotations have their x and y
    angles in [0, pi) and their z angle equal to 0. *)
Theorem generated_rotations_two_angles (count : Z) type rng :
  Rand.uniform rng ->
  exists ps,
    generateParticles count type rng = Returned ps /\
    length ps = Z.to_nat count /\
    forall i p, nth_error ps i = Some p ->
      (0 <= ex (scatterRotation p) < PI /\
       0 <= ey (scatterRotation p) < PI /\
       ez (scatterRotation p) = 0) /\
      (0 <= ex (treeRotation p) < PI /\
       0 <= ey (treeRotation p) < PI /\
       ez (treeRotation p) = 0).
Proof.
  intros Hrng.
  apply (generateParticles_all
           (fun _ p =>
              (0 <= ex (scatterRotation p) < PI /\
               0 <= ey (scatterRotation p) < PI /\
               ez (scatterRotation p) = 0) /\
              (0 <= ex (treeRotation p) < PI /\
               0 <= ey (treeRotation p) < PI /\
               ez (treeRotation p) = 0))).
  intros i. rewrite particleAt_fields.
  cbn [scatterRotation treeRotation ex ey ez].
  pose proof PI_RGT_0 as Hpi.
  pose proof (Hrng (13 * i + 7)%nat). pose proof (Hrng (13 * i + 8)%nat).
  pose proof (Hrng (13 * i + 9)%nat). pose proof (Hrng (13 * i + 10)%nat).
  repeat split; nra.
Qed.

Lemma generated_rotations_two_angles_witness :
  exists ps,
    generateParticles 1 sphere (fun _ => 1 / 4) = Returned ps /\
    length ps = Z.to_nat 1 /\
    forall i p, nth_error ps i = Some p ->
      (0 <= ex (scatterRotation p) < PI /\
       0 <= ey (scatterRotation p) < PI /\
       ez (scatterRotation p) = 0) /\
      (0 <= ex (treeRotation p) < PI /\
       0 <= ey (treeRotation p) < PI /\
       ez (treeRotation p) = 0).
Proof.
  apply (generated_rotations_two_angles 1 sphere (fun _ => 1 / 4)).
  intros k. lra.
Defined.

(** ** The tree position *)

Lemma horizontal_distance (r a : R) :
  0 <= r -> sqrt ((r * cos a) * (r * cos a) + (r * sin a) * (r * sin a)) = r.
Proof.
  intros Hr.
  replace ((r * cos a) * (r * cos a) + (r * sin a) * (r * sin a))
    with ((r * r) * ((sin a)² + (cos a)²)) by (unfold Rsqr; ring).
  rewrite sin2_cos2, Rmult_1_r. now apply sqrt_square.
Qed.

(** C6: the tree position of particle [i] is built from the draws [u], [u']
    and [u''] (the fourth, fifth and sixth of its thirteen) as height
    fraction [h = u^1.2], [y = -13/2 + h*13 + 1], radius bound
    [(1-h)*5.5], pile radius [bound * (0.2 + 0.8*sqrt u')] and pile angle
    [u''*pi*2] in [0, 2pi); [y] lies in [-5.5, 7.5] and the horizontal
    distance from the axis is at most the radius bound. *)
Theorem generated_tree_position (count : Z) type rng :
  Rand.uniform rng ->
  exists ps,
    generateParticles count type rng = Returned ps /\
    length ps = Z.to_nat count /\
    forall i p, nth_error ps i = Some p ->
      let u := rng (13 * i + 3)%nat in
      let u' := rng (13 * i + 4)%nat in
      let u'' := rng (13 * i + 5)%nat in
      let h := JsMath.pow u 1.2 in
      let y := - 13 / 2 + h * 13 + 1 in
      let bound := (1 - h) * 5.5 in
      let radius := bound * (0.2 + 0.8 * sqrt u') in
      let angle := u'' * PI * 2 in
      treePosition p = mkVector3 (radius * cos angle) y (radius * sin angle) /\
      0 <= angle < 2 * PI /\
      -5.5 <= vy (treePosition p) <= 7.5 /\
      sqrt (vx (treePosition p) * vx (treePosition p) +
            vz (treePosition p) * vz (treePosition p)) <= bound.
Proof.
  intros Hrng.
  apply (generateParticles_all
           (fun i p =>
              let u := rng (13 * i + 3)%nat in
              let u' := rng (13 * i + 4)%nat in
              let u'' := rng (13 * i + 5)%nat in
              let h := JsMath.pow u 1.2 in
              let y := - 13 / 2 + h * 13 + 1 in
              let bound := (1 - h) * 5.5 in
              let radius := bound * (0.2 + 0.8 * sqrt u') in
              let angle := u'' * PI * 2 in
              treePosition p =
                mkVector3 (radius * cos angle) y (radius * sin angle) /\
              0 <= angle < 2 * PI /\
              -5.5 <= vy (treePosition p) <= 7.5 /\
              sqrt (vx (treePosition p) * vx (treePosition p) +
                    vz (treePosition p) * vz (treePosition p)) <= bound)).
  intros i. rewrite particleAt_fields. cbn zeta. cbn [treePosition].
  unfold treePos, pileRadius, radiusAtHeight, treeY, hNormal, pileAngle,
    treeHeight, maxBaseRadius. cbn [vx vy vz].
  pose proof PI_RGT_0 as Hpi.
  assert (Hh : 0 <= JsMath.pow (rng (13 * i + 3)%nat) 1.2 < 1)
    by (apply pow_range; [apply Hrng | lra]).
  assert (Hs : 0 <= sqrt (rng (13 * i + 4)%nat) < 1)
    by (apply sqrt_range, Hrng).
  pose proof (Hrng (13 * i + 5)%nat) as Ha.
  split; [reflexivity |]. split; [nra |]. split; [lra |].
  rewrite horizontal_distance by nra. nra.
Qed.

Lemma generated_tree_position_witness :
  exists ps,
    generateParticles 3 sphere (fun _ => 1 / 2) = Returned ps /\
    length ps = Z.to_nat 3 /\
    forall i p, nth_error ps i = Some p ->
      let u := (fun _ : nat => 1 / 2) (13 * i + 3)%nat in
      let u' := (fun _ : nat => 1 / 2) (13 * i + 4)%nat in
      let u'' := (fun _ : nat => 1 / 2) (13 * i + 5)%nat in
      let h := JsMath.pow u 1.2 in
      let y := - 13 / 2 + h * 13 + 1 in
      let bound := (1 - h) * 5.5 in
      let radius := bound * (0.2 + 0.8 * sqrt u') in
      let angle := u'' * PI * 2 in
      treePosition p = mkVector3 (radius * cos angle) y (radius * sin angle) /\
      0 <= angle < 2 * PI /\
      -5.5 <= vy (treePosition p) <= 7.5 /\
      sqrt (vx (treePosition p) * vx (treePosition p) +
            vz (treePosition p) * vz (treePosition p)) <= bound.
Proof.
  apply (generated_tree_position 3 sphere (fun _ => 1 / 2)).
  intros k. lra.
Defined.

(** ** The colour picker *)

(** C3: on a draw [u] in [0, 1] the picker returns the first colour of the
    class's table whose cumulative bound exceeds [u] (at [u = 1], where no
    bound does, the colour of the last row); for each class the result is
    the one the table lists for the interval that [u] falls in. *)
Theorem pickColor_first_exceeding (type : ParticleType) (u : R) :
  0 <= u <= 1 ->
  match ColorSpec.firstExceeding (ColorSpec.table type) u with
  | Some c => pickColor type u = c
  | None => u = 1 /\ pickColor type u = ColorSpec.lastColor type
  end /\
  (u < 0.30 -> pickColor sphere u = MORANDI) /\
  (0.30 <= u < 0.55 -> pickColor sphere u = WHITE) /\
  (0.55 <= u < 0.70 -> pickColor sphere u = GOLD_CHAMPAGNE) /\
  (0.70 <= u < 0.85 -> pickColor sphere u = PINK) /\
  (0.85 <= u < 0.95 -> pickColor sphere u = BROWN) /\
  (0.95 <= u -> pickColor sphere u = GOLD_BRIGHT) /\
  (u < 0.25 -> pickColor cube u = GOLD_BRIGHT) /\
  (0.25 <= u < 0.45 -> pickColor cube u = GOLD_DEEP) /\
  (0.45 <= u < 0.60 -> pickColor cube u = WHITE) /\
  (0.60 <= u < 0.75 -> pickColor cube u = MORANDI) /\
  (0.75 <= u < 0.85 -> pickColor cube u = BROWN) /\
  (0.85 <= u -> pickColor cube u = GOLD_CHAMPAGNE) /\
  (u < 0.4 -> pickColor gem u = AMBER) /\
  (0.4 <= u < 0.7 -> pickColor gem u = WHITE) /\
  (0.7 <= u < 0.85 -> pickColor gem u = GOLD_BRIGHT) /\
  (0.85 <= u -> pickColor gem u = PINK).
Proof.
  intros Hu. split.
  - destruct type; unfold pickColor;
      cbn [ColorSpec.table ColorSpec.firstExceeding];
      repeat (match goal with
              | |- context [Rlt_dec ?a ?b] => destruct (Rlt_dec a b)
              end; try lra; try reflexivity);
      (split; [lra | reflexivity]).
  - unfold pickColor;
      repeat split; intros Hcase;
      repeat (match goal with
              | |- context [Rlt_dec ?a ?b] => destruct (Rlt_dec a b)
              end; try lra; try reflexivity).
Qed.

(** On the bounds: 0.30 is already White, and at 1 no bound of the table is
    above the draw. *)
Example pickColor_on_bounds :
  pickColor sphere 0.30 = WHITE /\
  pickColor sphere 1 = GOLD_BRIGHT /\
  ColorSpec.firstExceeding (ColorSpec.table sphere) 1 = None.
Proof.
  unfold pickColor; cbn [ColorSpec.table ColorSpec.firstExceeding];
    repeat split;
    repeat (match goal with
            | |- context [Rlt_dec ?a ?b] => destruct (Rlt_dec a b)
            end; try lra; try reflexivity).
Qed.

Lemma pickColor_first_exceeding_witness :
  0 <= 1 / 2 <= 1 /\ pickColor sphere (1 / 2) = WHITE.
Proof.
  split; [lra |].
  destruct (pickColor_first_exceeding sphere (1 / 2)) as (_ & _ & Hwhite & _);
    [lra |].
  apply Hwhite. lra.
Defined.

(** ** The per-frame transforms *)

Lemma setAt_length {A} (i : nat) (a : A) l : length (setAt i a l) = length l.
Proof.
  revert i; induction l as [| x l IH]; intros [| i]; simpl; auto.
Qed.

Lemma setAt_nth_same {A} (i : nat) (a : A) l :
  (i < length l)%nat -> nth_error (setAt i a l) i = Some a.
Proof.
  revert i; induction l as [| x l IH]; intros [| i] Hlt; simpl in *;
    try lia; auto. apply IH. lia.
Qed.

Lemma setAt_nth_other {A} (i j : nat) (a : A) l :
  i <> j -> nth_error (setAt i a l) j = nth_error l j.
Proof.
  revert i j; induction l as [| x l IH]; intros [| i] [| j] Hne; simpl;
    try congruence; auto.
Qed.

Section FrameFacts.

Context {E : External}.

Lemma forEachParticle_length elapsedTime t data : forall i buffers,
  length (fst (forEachParticle elapsedTime t data i buffers)) =
  length (fst buffers).
Proof.
  induction data as [| particle rest IH]; intros i buffers; simpl.
  - reflexivity.
  - rewrite IH. simpl. apply setAt_length.
Qed.

Lemma forEachParticle_before elapsedTime t data : forall i buffers j,
  (j < i)%nat ->
  nth_error (fst (forEachParticle elapsedTime t data i buffers)) j =
  nth_error (fst buffers) j.
Proof.
  induction data as [| particle rest IH]; intros i buffers j Hlt; simpl.
  - reflexivity.
  - rewrite IH by lia. simpl. apply setAt_nth_other. lia.
Qed.

Lemma forEachParticle_writes elapsedTime t data : forall i buffers j particle,
  nth_error data j = Some particle ->
  (i + j < length (fst buffers))%nat ->
  nth_error (fst (forEachParticle elapsedTime t data i buffers)) (i + j) =
  Some (particleTransform elapsedTime t particle (i + j)).
Proof.
  induction data as [| first rest IH]; intros i buffers j particle Hnth Hlt.
  - destruct j; discriminate.
  - destruct j as [| j]; simpl in *.
    + injection Hnth as <-. rewrite Nat.add_0_r in *.
      rewrite forEachParticle_before by lia. simpl.
      now apply setAt_nth_same.
    + replace (i + S j)%nat with (S i + j)%nat by lia.
      apply IH; [assumption |]. simpl. rewrite setAt_length. lia.
Qed.

(** What [animateMesh] writes: after the call, the entry of the matrix
    buffer at every index [j] of [data] that the buffer has is the transform
    of particle [j], and the group has turned by [delta * 0.05]. *)
Lemma animateMesh_writes elapsedTime delta t m data j particle :
  nth_error data j = Some particle ->
  (j < length (instanceMatrix m))%nat ->
  exists m',
    animateMesh elapsedTime delta t (Some m) data = Some m' /\
    rotation_y m' = rotation_y m + delta * 0.05 /\
    nth_error (instanceMatrix m') j =
    Some (particleTransform elapsedTime t particle j).
Proof.
  intros Hnth Hlt. eexists. split; [reflexivity |]. split; [reflexivity |].
  cbn [instanceMatrix].
  apply (forEachParticle_writes elapsedTime t data 0 _ j particle Hnth).
  exact Hlt.
Qed.

(** C2: the position that the transform evaluator computes for a particle
    is, at blend value 0, its scatter position plus the noise term
    [(sin(tau*speed + i), cos(tau*speed*0.5 + i)) * 0.2] on x and y, and at
    blend value 1 its tree position, the noise factor [0.2*(1-t)] being
    zero there. *)
Theorem position_at_blend_ends (elapsedTime : R) (particle : Particle)
  (i : nat) :
  position (particleTransform elapsedTime 0 particle i) =
    mkVector3
      (vx (scatterPosition particle)
       + sin (elapsedTime * speed particle + INR i) * 0.2)
      (vy (scatterPosition particle)
       + cos (elapsedTime * speed particle * 0.5 + INR i) * 0.2)
      (vz (scatterPosition particle)) /\
  position (particleTransform elapsedTime 1 particle i) =
    treePosition particle /\
  noiseX elapsedTime particle i 1 = 0 /\
  noiseY elapsedTime particle i 1 = 0.
Proof.
  unfold particleTransform, instancePosition, lerpVectors, noiseX, noiseY.
  cbn [position vx vy vz].
  destruct particle as [[sx sy sz] sr [tx ty tz] tr sc sp c].
  cbn [scatterPosition treePosition speed vx vy vz].
  repeat split; try (f_equal; ring); ring.
Qed.

End FrameFacts.

(** C9: for every generated particle, every elapsed time and every blend
    value, the scale written for the instance, the stored scale times
    [1 + 0.1*sin(tau*2 + i)], lies in [0.45, 1.43] and is positive. *)
Theorem rendered_scale_range {E : External} (count : Z) type rng :
  Rand.uniform rng ->
  exists ps,
    generateParticles count type rng = Returned ps /\
    length ps = Z.to_nat count /\
    forall i p elapsedTime t, nth_error ps i = Some p ->
      scaleScalar (particleTransform elapsedTime t p i) =
        scale p * (1 + 0.1 * sin (elapsedTime * 2 + INR i)) /\
      0.45 <= scaleScalar (particleTransform elapsedTime t p i) <= 1.43 /\
      0 < scaleScalar (particleTransform elapsedTime t p i).
Proof.
  intros Hrng.
  destruct (generated_scale_speed_range_aux count type rng Hrng)
    as (ps & Hgen & Hlen & Hall).
  exists ps. split; [assumption |]. split; [assumption |].
  intros i p elapsedTime t Hnth.
  destruct (Hall i p Hnth) as [Hscale _].
  unfold particleTransform, instanceScale, breathe. cbn [scaleScalar].
  pose proof (SIN_bound (elapsedTime * 2 + INR i)) as Hsin.
  split; [reflexivity |]. nra.
Qed.

Lemma rendered_scale_range_witness :
  exists ps,
    generateParticles 2 cube (fun _ => 1 / 2) = Returned ps /\
    length ps = Z.to_nat 2 /\
    forall i p elapsedTime t, nth_error ps i = Some p ->
      scaleScalar
        (particleTransform (E := SpecDamp.external) elapsedTime t p i) =
        scale p * (1 + 0.1 * sin (elapsedTime * 2 + INR i)) /\
      0.45 <= scaleScalar
                (particleTransform (E := SpecDamp.external) elapsedTime t p i)
           <= 1.43 /\
      0 < scaleScalar
            (particleTransform (E := SpecDamp.external) elapsedTime t p i).
Proof.
  apply (rendered_scale_range (E := SpecDamp.external)
           2 cube (fun _ => 1 / 2)).
  intros k. lra.
Defined.

(** ** The accent star *)

(** C8: when the star is mounted, the frame sets its scale to
    [lerp(0, 1.2, t)] of the blend value [t] (0 at [t = 0], 1.2 at [t = 1])
    and its height to [lerp(15, 8.2, t)] plus the bob [0.05*sin(tau*2)]. *)
Theorem star_scale_and_height {E : External} state (elapsedTime delta : R)
  (s : StarScene E) (star : Star) :
  starRef s = Some star ->
  exists star',
    starRef (starFrame state elapsedTime delta s) = Some star' /\
    let t := current (starBlendRef (starFrame state elapsedTime delta s)) in
    starScale star' = lerp 0 1.2 t /\
    (t = 0 -> starScale star' = 0) /\
    (t = 1 -> starScale star' = 1.2) /\
    position_y star' = lerp 15 8.2 t + 0.05 * sin (elapsedTime * 2) /\
    (t = 0 -> position_y star' = 15 + 0.05 * sin (elapsedTime * 2)) /\
    (t = 1 -> position_y star' = 8.2 + 0.05 * sin (elapsedTime * 2)).
Proof.
  intros Hstar. unfold starFrame. rewrite Hstar.
  eexists. split; [reflexivity |]. cbn [starBlendRef starScale position_y].
  unfold lerp. repeat split; try ring; intros ->; ring.
Qed.

Lemma star_scale_and_height_witness :
  exists star',
    starRef (starFrame TREE_SHAPE 3 (1 / 60) SpecDamp.starAtRest)
      = Some star' /\
    starScale star' =
      lerp 0 1.2
        (current
           (starBlendRef
              (starFrame TREE_SHAPE 3 (1 / 60) SpecDamp.starAtRest))).
Proof.
  destruct (star_scale_and_height TREE_SHAPE 3 (1 / 60)
              SpecDamp.starAtRest (mkStar 15 0 2) eq_refl)
    as (star' & Href & Hscale & _).
  exists star'. split; [exact Href | exact Hscale].
Defined.

(** ** The delta-time of a frame *)

(** C5, as the code has it: a frame uses its delta-time as given, whatever
    its sign.  The tree's frame passes it to [easing.damp] with smooth time
    1.2 and turns each mounted group by [delta * 0.05]; the star's frame,
    when the star is mounted, passes it to [easing.damp] with smooth time 1.0
    and turns the star by [delta * 0.8]. *)
Theorem frame_uses_delta_unclamped {E : External} state (elapsedTime delta : R)
  (s : TreeScene E) (ss : StarScene E) (star : Star) :
  starRef ss = Some star ->
  blendRef (treeFrame state elapsedTime delta s) =
    damp (blendRef s) (targetBlend state) 1.2 delta /\
  option_map rotation_y (sphereRef (treeFrame state elapsedTime delta s)) =
    option_map (fun m => rotation_y m + delta * 0.05) (sphereRef s) /\
  option_map rotation_y (cubeRef (treeFrame state elapsedTime delta s)) =
    option_map (fun m => rotation_y m + delta * 0.05) (cubeRef s) /\
  option_map rotation_y (gemRef (treeFrame state elapsedTime delta s)) =
    option_map (fun m => rotation_y m + delta * 0.05) (gemRef s) /\
  starBlendRef (starFrame state elapsedTime delta ss) =
    damp (starBlendRef ss) (targetBlend state) 1.0 delta /\
  option_map starRotation_y (starRef (starFrame state elapsedTime delta ss)) =
    Some (starRotation_y star + delta * 0.8).
Proof.
  intros Hstar. unfold treeFrame, starFrame, animateMesh. rewrite Hstar.
  cbn [blendRef sphereRef cubeRef gemRef starBlendRef starRef].
  repeat split;
    try (destruct (sphereRef s)); try (destruct (cubeRef s));
    try (destruct (gemRef s)); reflexivity.
Qed.

Lemma frame_uses_delta_unclamped_witness :
  option_map starRotation_y
    (starRef (starFrame SCATTERED 0 (-1) SpecDamp.starAtRest)) =
  Some (2 + -1 * 0.8).
Proof.
  apply (frame_uses_delta_unclamped SCATTERED 0 (-1)
           SpecDamp.treeAtRest SpecDamp.starAtRest (mkStar 15 0 2) eq_refl).
Defined.

(** C5 fails as stated: a frame with a delta-time of -1 turns the sphere
    group of [treeAtRest] from 0 to -0.05; with the delta-time clamped to
    zero, as in a frame of delta-time 0, the group would have stayed at 0. *)
Lemma negative_delta_turns_group_back :
  option_map rotation_y
    (sphereRef (treeFrame SCATTERED 0 (-1) SpecDamp.treeAtRest))
    = Some (-0.05) /\
  option_map rotation_y
    (sphereRef (treeFrame SCATTERED 0 0 SpecDamp.treeAtRest))
    = Some 0.
Proof.
  unfold treeFrame, animateMesh, SpecDamp.treeAtRest.
  cbn [sphereRef option_map rotation_y].
  split; f_equal; lra.
Qed.

(** ** The damped advance *)

Lemma decay_range (dt timeConstant : R) :
  0 < dt -> 0 < timeConstant -> 0 < exp (- dt / timeConstant) < 1.
Proof.
  intros Hdt Htc. split; [apply exp_pos |].
  rewrite <- exp_0. apply exp_increasing.
  unfold Rdiv. rewrite <- Ropp_mult_distr_l.
  assert (0 < dt * / timeConstant)
    by (apply Rmult_lt_0_compat; [| apply Rinv_0_lt_compat]; assumption).
  lra.
Qed.

Lemma advance_closer_and_bounded (value target timeConstant dt : R) :
  0 <= value <= 1 -> target = 0 \/ target = 1 ->
  0 < dt -> 0 < timeConstant ->
  (value <> target ->
   Rabs (SpecDamp.advance value target timeConstant dt - target)
   < Rabs (value - target)) /\
  0 <= SpecDamp.advance value target timeConstant dt <= 1.
Proof.
  intros Hv Ht Hdt Htc. unfold SpecDamp.advance.
  pose proof (decay_range dt timeConstant Hdt Htc) as He.
  set (e := exp (- dt / timeConstant)) in *.
  split.
  - intros Hne.
    replace (target + (value - target) * e - target)
      with ((value - target) * e) by ring.
    rewrite Rabs_mult, (Rabs_pos_eq e) by lra.
    assert (0 < Rabs (value - target)) by (apply Rabs_pos_lt; lra).
    nra.
  - destruct Ht as [-> | ->]; nra.
Qed.

(** C1: from a blend value in [0,1] and with [dt > 0], one advance towards
    the target (0 or 1) brings the value strictly closer to the target when
    it is not there yet, and the new value is in [0,1]; for the controller of
    the particle groups (time constant 1.2) and for that of the star (time
    constant 1.0). *)
Theorem blend_advance_closer_and_bounded (state : TreeMorphState)
  (value dt : R) :
  0 <= value <= 1 -> 0 < dt ->
  ((value <> targetBlend state ->
    Rabs (SpecDamp.treeAdvance state value dt - targetBlend state)
    < Rabs (value - targetBlend state)) /\
   0 <= SpecDamp.treeAdvance state value dt <= 1) /\
  ((value <> targetBlend state ->
    Rabs (SpecDamp.starAdvance state value dt - targetBlend state)
    < Rabs (value - targetBlend state)) /\
   0 <= SpecDamp.starAdvance state value dt <= 1).
Proof.
  intros Hv Hdt.
  assert (Ht : targetBlend state = 0 \/ targetBlend state = 1)
    by (destruct state; simpl; auto).
  unfold SpecDamp.treeAdvance, SpecDamp.starAdvance.
  split; apply advance_closer_and_bounded; try assumption; lra.
Qed.

Lemma blend_advance_closer_and_bounded_witness :
  0 <= SpecDamp.treeAdvance TREE_SHAPE (1 / 4) (1 / 10) <= 1 /\
  0 <= SpecDamp.starAdvance TREE_SHAPE (1 / 4) (1 / 10) <= 1.
Proof.
  destruct (blend_advance_closer_and_bounded TREE_SHAPE (1 / 4) (1 / 10))
    as [[_ Htree] [_ Hstar]]; [lra | lra |].
  split; assumption.
Defined.

(** * Further properties of the code *)

(** ** The scatter position *)

Lemma cbrt_range (u : R) : 0 <= u < 1 -> 0 <= JsMath.cbrt u < 1.
Proof.
  intros Hu. unfold JsMath.cbrt.
  destruct (Rlt_dec 0 u) as [Hpos | Hnpos].
  - pose proof (pow_range u (1 / 3) Hu ltac:(lra)) as Hp.
    unfold JsMath.pow in Hp. destruct (Rlt_dec 0 u); [exact Hp | contradiction].
  - destruct (Rlt_dec u 0); lra.
Qed.

Lemma spherical_norm (r phi theta : R) :
  0 <= r ->
  sqrt ((r * sin phi * cos theta) * (r * sin phi * cos theta)
        + (r * sin phi * sin theta) * (r * sin phi * sin theta)
        + (r * cos phi) * (r * cos phi)) = r.
Proof.
  intros Hr.
  replace ((r * sin phi * cos theta) * (r * sin phi * cos theta)
           + (r * sin phi * sin theta) * (r * sin phi * sin theta)
           + (r * cos phi) * (r * cos phi))
    with ((r * r)
          * ((sin phi)² * ((sin theta)² + (cos theta)²) + (cos phi)²))
    by (unfold Rsqr; ring).
  rewrite sin2_cos2, Rmult_1_r, sin2_cos2, Rmult_1_r.
  now apply sqrt_square.
Qed.

(** The scatter position of particle [i] lies in the open ball of radius 22
    around the origin, at distance [22 * cbrt u] for its first draw [u], and
    its z coordinate is that distance times [2 * u' - 1] for its third draw
    [u']. *)
Theorem scatter_position_in_ball (count : Z) type rng :
  Rand.uniform rng ->
  exists ps,
    generateParticles count type rng = Returned ps /\
    forall i p, nth_error ps i = Some p ->
      let v := scatterPosition p in
      let r := 22 * JsMath.cbrt (rng (13 * i)%nat) in
      sqrt (vx v * vx v + vy v * vy v + vz v * vz v) = r /\
      0 <= r < 22 /\
      vz v = r * (2 * rng (13 * i + 2)%nat - 1).
Proof.
  intros Hrng.
  destruct (generateParticles_all
              (fun i p =>
                 let v := scatterPosition p in
                 let r := 22 * JsMath.cbrt (rng (13 * i)%nat) in
                 sqrt (vx v * vx v + vy v * vy v + vz v * vz v) = r /\
                 0 <= r < 22 /\
                 vz v = r * (2 * rng (13 * i + 2)%nat - 1))
              count type rng) as (ps & Hgen & _ & Hall).
  - intros i. rewrite particleAt_fields. cbn zeta. cbn [scatterPosition].
    unfold scatterPos. cbn [vx vy vz].
    pose proof (cbrt_range _ (Hrng (13 * i)%nat)) as Hc.
    pose proof (Hrng (13 * i + 2)%nat) as Hu.
    split; [apply spherical_norm; lra |]. split; [lra |].
    rewrite cos_acos by lra. reflexivity.
  - exists ps. split; assumption.
Qed.

Lemma scatter_position_in_ball_witness :
  exists ps,
    generateParticles 2 sphere (fun _ => 1 / 2) = Returned ps /\
    forall i p, nth_error ps i = Some p ->
      let v := scatterPosition p in
      let r := 22 * JsMath.cbrt ((fun _ : nat => 1 / 2) (13 * i)%nat) in
      sqrt (vx v * vx v + vy v * vy v + vz v * vz v) = r /\
      0 <= r < 22 /\
      vz v = r * (2 * (fun _ : nat => 1 / 2) (13 * i + 2)%nat - 1).
Proof.
  apply (scatter_position_in_ball 2 sphere (fun _ => 1 / 2)).
  intros k. lra.
Defined.

(** ** The tree position, in its own coordinates *)

(** The tree position of a generated particle lies in a conical shell: at
    height [y] its distance from the axis is between 20% and 100% of
    [(7.5 - y) * 5.5 / 13], the radius of the cone with apex at [y = 7.5]
    and base radius 5.5 at [y = -5.5]. *)
Theorem tree_position_in_conical_shell (count : Z) type rng :
  Rand.uniform rng ->
  exists ps,
    generateParticles count type rng = Returned ps /\
    forall i p, nth_error ps i = Some p ->
      let v := treePosition p in
      let cone := (7.5 - vy v) * 5.5 / 13 in
      0 < cone /\
      0.2 * cone <= sqrt (vx v * vx v + vz v * vz v) <= cone.
Proof.
  intros Hrng.
  destruct (generateParticles_all
              (fun (_ : nat) p =>
                 let v := treePosition p in
                 let cone := (7.5 - vy v) * 5.5 / 13 in
                 0 < cone /\
                 0.2 * cone <= sqrt (vx v * vx v + vz v * vz v) <= cone)
              count type rng) as (ps & Hgen & _ & Hall).
  - intros i. rewrite particleAt_fields. cbn zeta. cbn [treePosition].
    unfold treePos, pileRadius, radiusAtHeight, treeY, hNormal, treeHeight,
      maxBaseRadius. cbn [vx vy vz].
    assert (Hh : 0 <= JsMath.pow (rng (13 * i + 3)%nat) 1.2 < 1)
      by (apply pow_range; [apply Hrng | lra]).
    assert (Hs : 0 <= sqrt (rng (13 * i + 4)%nat) < 1)
      by (apply sqrt_range, Hrng).
    rewrite horizontal_distance by nra.
    split; [lra |]. split; nra.
  - exists ps. split; assumption.
Qed.

Lemma tree_position_in_conical_shell_witness :
  exists ps,
    generateParticles 2 gem (fun _ => 1 / 4) = Returned ps /\
    forall i p, nth_error ps i = Some p ->
      let v := treePosition p in
      let cone := (7.5 - vy v) * 5.5 / 13 in
      0 < cone /\
      0.2 * cone <= sqrt (vx v * vx v + vz v * vz v) <= cone.
Proof.
  apply (tree_position_in_conical_shell 2 gem (fun _ => 1 / 4)).
  intros k. lra.
Defined.

(** ** The colours of a class *)

Ltac pick_cases :=
  repeat (match goal with
          | |- context [Rlt_dec ?a ?b] => destruct (Rlt_dec a b)
          end; try lra; try reflexivity).

Ltac pick_at u :=
  exists u; split; [lra | unfold pickColor; pick_cases].

(** The colours that a class can get, on draws in [0, 1), are exactly those
    of its branch of the colour mixing: six for a sphere (never Amber or
    deep gold), six for a cube (never Amber or Pink), four for a gem. *)
Theorem pickColor_colours_of_class (c : Color) :
  ((exists u, 0 <= u < 1 /\ pickColor sphere u = c) <->
   In c [MORANDI; WHITE; GOLD_CHAMPAGNE; PINK; BROWN; GOLD_BRIGHT]) /\
  ((exists u, 0 <= u < 1 /\ pickColor cube u = c) <->
   In c [GOLD_BRIGHT; GOLD_DEEP; WHITE; MORANDI; BROWN; GOLD_CHAMPAGNE]) /\
  ((exists u, 0 <= u < 1 /\ pickColor gem u = c) <->
   In c [AMBER; WHITE; GOLD_BRIGHT; PINK]).
Proof.
  repeat split.
  - intros (u & _ & <-). unfold pickColor.
    repeat (match goal with
            | |- context [Rlt_dec ?a ?b] => destruct (Rlt_dec a b)
            end; [simpl; tauto |]); simpl; tauto.
  - simpl. intros [<- | [<- | [<- | [<- | [<- | [<- | []]]]]]].
    + pick_at 0.1. + pick_at 0.4. + pick_at 0.6.
    + pick_at 0.8. + pick_at 0.9. + pick_at 0.99.
  - intros (u & _ & <-). unfold pickColor.
    repeat (match goal with
            | |- context [Rlt_dec ?a ?b] => destruct (Rlt_dec a b)
            end; [simpl; tauto |]); simpl; tauto.
  - simpl. intros [<- | [<- | [<- | [<- | [<- | [<- | []]]]]]].
    + pick_at 0.1. + pick_at 0.3. + pick_at 0.5.
    + pick_at 0.7. + pick_at 0.8. + pick_at 0.9.
  - intros (u & _ & <-). unfold pickColor.
    repeat (match goal with
            | |- context [Rlt_dec ?a ?b] => destruct (Rlt_dec a b)
            end; [simpl; tauto |]); simpl; tauto.
  - simpl. intros [<- | [<- | [<- | [<- | []]]]].
    + pick_at 0.1. + pick_at 0.5. + pick_at 0.8. + pick_at 0.9.
Qed.

Lemma pickColor_colours_of_class_witness :
  ~ (exists u, 0 <= u < 1 /\ pickColor sphere u = AMBER).
Proof.
  intros H.
  destruct (pickColor_colours_of_class AMBER) as [[Hsphere _] _].
  pose proof (Hsphere H) as Hin. simpl in Hin.
  repeat (destruct Hin as [Hin | Hin]; [discriminate Hin |]). exact Hin.
Defined.

(** ** The draws of the generator *)

Lemma genLoop_draws type rng n : forall data k,
  snd (genLoop type n data rng k) = (k + 13 * n)%nat.
Proof.
  induction n as [| n IH]; intros data k.
  - simpl. lia.
  - cbn [genLoop]. unfold Rand.bind at 1. rewrite genParticle_eq.
    rewrite IH. lia.
Qed.

Lemma particleAt_shift type rng k j :
  particleAt type rng (k + j) = particleAt type (fun n => rng (k + n)%nat) j.
Proof.
  rewrite !particleAt_fields.
  repeat match goal with
         | |- context [rng (k + j + ?c)%nat] =>
             replace (k + j + c)%nat with (k + (j + c))%nat by lia
         end.
  reflexivity.
Qed.

Lemma generateParticlesFrom_eq count type rng k :
  generateParticlesFrom count type rng k =
  (map (fun i => particleAt type (fun n => rng (k + n)%nat) (13 * i))
       (seq 0 (Z.to_nat count)),
   (k + 13 * Z.to_nat count)%nat).
Proof.
  unfold generateParticlesFrom.
  rewrite (surjective_pairing (genLoop _ _ _ _ _)).
  rewrite genLoop_spec, genLoop_draws. cbn [app]. f_equal.
  apply map_ext. intros i. apply particleAt_shift.
Qed.

(** A call of [generateParticles] for [count] particles makes exactly
    [13 * count] calls of [Math.random] (none for a negative count), and
    returns what a call made on a
    fresh stream returns on the draws that are still to come. *)
Theorem generateParticlesFrom_draws (count : Z) type rng (k : nat) :
  snd (generateParticlesFrom count type rng k)
    = (k + 13 * Z.to_nat count)%nat /\
  generateParticles count type (fun n => rng (k + n)%nat)
    = Returned (fst (generateParticlesFrom count type rng k)) /\
  length (fst (generateParticlesFrom count type rng k)) = Z.to_nat count.
Proof.
  rewrite generateParticlesFrom_eq, generateParticles_eq.
  cbn [fst snd]. rewrite length_map, length_seq. auto.
Qed.

(** The three groups of [InteractiveTree] have 600, 600 and 300 particles and
    come from consecutive runs of draws: the spheres from draws 0 to 7799,
    the cubes from draws 7800 to 15599, the gems from draws 15600 to 19499;
    19500 draws are made in all. *)
Theorem generateGroups_runs (rng : nat -> R) :
  exists spheres cubes gems,
    generateGroups rng 0%nat = ((spheres, cubes, gems), (13 * 1500)%nat) /\
    generateParticles 600 sphere rng = Returned spheres /\
    generateParticles 600 cube (fun n => rng (13 * 600 + n)%nat)
      = Returned cubes /\
    generateParticles 300 gem (fun n => rng (13 * 1200 + n)%nat)
      = Returned gems /\
    length spheres = 600%nat /\ length cubes = 600%nat /\
    length gems = 300%nat.
Proof.
  unfold generateGroups, Rand.bind, Rand.ret,
    COUNTS_SPHERES, COUNTS_CUBES, COUNTS_GEMS.
  rewrite (generateParticlesFrom_eq 600 sphere rng 0%nat).
  change (0 + 13 * Z.to_nat 600)%nat with (13 * 600)%nat.
  rewrite (generateParticlesFrom_eq 600 cube rng (13 * 600)%nat).
  change (13 * 600 + 13 * Z.to_nat 600)%nat with (13 * 1200)%nat.
  rewrite (generateParticlesFrom_eq 300 gem rng (13 * 1200)%nat).
  change (13 * 1200 + 13 * Z.to_nat 300)%nat with (13 * 1500)%nat.
  do 3 eexists. split; [reflexivity |].
  rewrite !generateParticles_eq, !length_map, !length_seq.
  repeat split; reflexivity.
Qed.

(** Asking for more particles keeps the ones already there: on the same
    draws, the group of [n] particles is the first [n] of the group of [m],
    for [0 <= n <= m]. *)
Theorem generateParticles_prefix (n m : Z) type rng :
  (0 <= n <= m)%Z ->
  exists small large,
    generateParticles n type rng = Returned small /\
    generateParticles m type rng = Returned large /\
    small = firstn (Z.to_nat n) large.
Proof.
  intros Hnm. rewrite !generateParticles_eq. do 2 eexists.
  split; [reflexivity |]. split; [reflexivity |].
  rewrite firstn_map. f_equal.
  replace (Z.to_nat m) with (Z.to_nat n + (Z.to_nat m - Z.to_nat n))%nat
    by lia.
  rewrite seq_app, firstn_app, length_seq, Nat.sub_diag, firstn_O, app_nil_r.
  rewrite firstn_all2 by (rewrite length_seq; lia). reflexivity.
Qed.

Lemma generateParticles_prefix_witness :
  exists small large,
    generateParticles 1 sphere (fun _ => 1 / 2) = Returned small /\
    generateParticles 3 sphere (fun _ => 1 / 2) = Returned large /\
    small = firstn (Z.to_nat 1) large.
Proof.
  apply (generateParticles_prefix 1 3 sphere (fun _ => 1 / 2)). lia.
Defined.

(** ** The instance buffers *)

Section BufferFacts.

Context {E : External}.

Lemma forEachParticle_after elapsedTime t data : forall i buffers j,
  (i + length data <= j)%nat ->
  nth_error (fst (forEachParticle elapsedTime t data i buffers)) j =
    nth_error (fst buffers) j /\
  nth_error (snd (forEachParticle elapsedTime t data i buffers)) j =
    nth_error (snd buffers) j.
Proof.
  induction data as [| particle rest IH]; intros i buffers j Hle; simpl in *.
  - auto.
  - destruct (IH (S i) (setAt i (particleTransform elapsedTime t particle i)
                          (fst buffers),
                        setAt i (color particle) (snd buffers)) j) as [Hm Hc];
      [lia |].
    rewrite Hm, Hc. simpl. split; apply setAt_nth_other; lia.
Qed.

Lemma forEachParticle_colors_before elapsedTime t data : forall i buffers j,
  (j < i)%nat ->
  nth_error (snd (forEachParticle elapsedTime t data i buffers)) j =
  nth_error (snd buffers) j.
Proof.
  induction data as [| particle rest IH]; intros i buffers j Hlt; simpl.
  - reflexivity.
  - rewrite IH by lia. simpl. apply setAt_nth_other. lia.
Qed.

Lemma forEachParticle_colors elapsedTime t data :
  forall i buffers j particle,
  nth_error data j = Some particle ->
  (i + j < length (snd buffers))%nat ->
  nth_error (snd (forEachParticle elapsedTime t data i buffers)) (i + j) =
  Some (color particle).
Proof.
  induction data as [| first rest IH]; intros i buffers j particle Hnth Hlt.
  - destruct j; discriminate.
  - destruct j as [| j]; simpl in *.
    + injection Hnth as <-. rewrite Nat.add_0_r in *.
      rewrite forEachParticle_colors_before by lia. simpl.
      now apply setAt_nth_same.
    + replace (i + S j)%nat with (S i + j)%nat by lia.
      apply IH; [assumption |]. simpl. rewrite setAt_length. lia.
Qed.

(** [animateMesh] never resizes the matrix buffer of a mounted group, leaves
    every entry of it at an index past the end of [data] as it was, and
    flags it for upload. *)
Theorem animateMesh_keeps_buffers (elapsedTime delta t : R)
  (m : InstancedMesh E) (data : list Particle) :
  exists m',
    animateMesh elapsedTime delta t (Some m) data = Some m' /\
    length (instanceMatrix m') = length (instanceMatrix m) /\
    (forall j, (length data <= j)%nat ->
       nth_error (instanceMatrix m') j = nth_error (instanceMatrix m) j) /\
    instanceMatrixNeedsUpdate m' = true.
Proof.
  eexists. split; [reflexivity |].
  cbn [instanceMatrix instanceMatrixNeedsUpdate].
  rewrite forEachParticle_length.
  repeat split; try reflexivity.
  intros j Hj.
  apply (forEachParticle_after elapsedTime t data 0
           (instanceMatrix m, instanceColor m) j). simpl. lia.
Qed.

(** When the buffers of a mounted group have one entry per particle,
    [animateMesh] overwrites them whole: entry [j] of the matrix buffer is
    the transform of particle [j] and the colour buffer is the list of the
    particles' colours, whatever the buffers held before. *)
Theorem animateMesh_overwrites (elapsedTime delta t : R)
  (m : InstancedMesh E) (data : list Particle) :
  length (instanceMatrix m) = length data ->
  length (instanceColor m) = length data ->
  exists m',
    animateMesh elapsedTime delta t (Some m) data = Some m' /\
    (forall j,
       nth_error (instanceMatrix m') j =
       option_map (fun particle => particleTransform elapsedTime t particle j)
         (nth_error data j)) /\
    instanceColor m' = map color data.
Proof.
  intros Hlm Hlc. eexists. split; [reflexivity |].
  cbn [instanceMatrix instanceColor]. split.
  - intros j. destruct (nth_error data j) as [particle |] eqn:Hj; simpl.
    + apply (forEachParticle_writes elapsedTime t data 0 _ j particle Hj).
      simpl. rewrite Hlm. apply nth_error_Some. congruence.
    + apply nth_error_None in Hj.
      destruct (forEachParticle_after elapsedTime t data 0
                  (instanceMatrix m, instanceColor m) j) as [Hm _];
        [simpl; lia |].
      rewrite Hm. simpl. apply nth_error_None. lia.
  - apply nth_error_ext. intros j. rewrite nth_error_map.
    destruct (nth_error data j) as [particle |] eqn:Hj; simpl.
    + apply (forEachParticle_colors elapsedTime t data 0 _ j particle Hj).
      simpl. rewrite Hlc. apply nth_error_Some. congruence.
    + apply nth_error_None in Hj.
      destruct (forEachParticle_after elapsedTime t data 0
                  (instanceMatrix m, instanceColor m) j) as [_ Hc];
        [simpl; lia |].
      rewrite Hc. simpl. apply nth_error_None. lia.
Qed.

End BufferFacts.

Lemma animateMesh_overwrites_witness :
  exists m',
    animateMesh (E := SpecDamp.external) 3 (1 / 60) (1 / 2)
      (Some (mkInstancedMesh (E := SpecDamp.external) 0
               [mkTransform (E := SpecDamp.external) (mkVector3 0 0 0) tt 1]
               false [WHITE] false))
      [particleAt gem (fun _ => 1 / 4) 0] = Some m' /\
    instanceColor m' = [AMBER].
Proof.
  destruct (animateMesh_overwrites (E := SpecDamp.external) 3 (1 / 60) (1 / 2)
              (mkInstancedMesh (E := SpecDamp.external) 0
                 [mkTransform (E := SpecDamp.external) (mkVector3 0 0 0) tt 1]
                 false [WHITE] false)
              [particleAt gem (fun _ => 1 / 4) 0] eq_refl eq_refl)
    as (m' & Hrun & _ & Hcolors).
  exists m'. split; [exact Hrun |]. rewrite Hcolors.
  rewrite particleAt_fields. cbn [map color]. f_equal.
  unfold pickColor. pick_cases.
Defined.

(** ** Where the instances are *)

Lemma position_bounds_aux (elapsedTime : R) (particle : Particle)
  (i : nat) (t : R) :
  0 <= t <= 1 ->
  - (0.2 * (1 - t)) <= noiseX elapsedTime particle i t <= 0.2 * (1 - t) /\
  - (0.2 * (1 - t)) <= noiseY elapsedTime particle i t <= 0.2 * (1 - t) /\
  0 <= 0.2 * (1 - t) <= 0.2.
Proof.
  intros Ht. unfold noiseX, noiseY.
  pose proof (SIN_bound (elapsedTime * speed particle + INR i)) as Hs.
  pose proof (COS_bound (elapsedTime * speed particle * 0.5 + INR i)) as Hc.
  repeat split; nra.
Qed.

(** For a blend value in [0, 1] the position of an instance is off the
    straight line from its scatter position to its tree position by at most
    [0.2 * (1 - t)] in x and in y, and not at all in z. *)
Theorem position_near_straight_line (elapsedTime : R) (particle : Particle)
  (i : nat) (t : R) :
  0 <= t <= 1 ->
  let line :=
    lerpVectors (scatterPosition particle) (treePosition particle) t in
  let at_t := instancePosition elapsedTime particle i t in
  Rabs (vx at_t - vx line) <= 0.2 * (1 - t) /\
  Rabs (vy at_t - vy line) <= 0.2 * (1 - t) /\
  vz at_t = vz line.
Proof.
  intros Ht. cbn zeta. unfold instancePosition, noiseX, noiseY.
  cbn [vx vy vz].
  pose proof (SIN_bound (elapsedTime * speed particle + INR i)) as Hs.
  pose proof (COS_bound (elapsedTime * speed particle * 0.5 + INR i)) as Hc.
  repeat split; try reflexivity;
    match goal with
    | |- Rabs (?a + ?n - ?a) <= _ => replace (a + n - a) with n by ring
    end;
    apply Rabs_le; nra.
Qed.

Lemma position_near_straight_line_witness :
  vz (instancePosition 3 (particleAt cube (fun _ => 1 / 2) 0) 4 (1 / 2)) =
  vz (lerpVectors (scatterPosition (particleAt cube (fun _ => 1 / 2) 0))
        (treePosition (particleAt cube (fun _ => 1 / 2) 0)) (1 / 2)).
Proof.
  destruct (position_near_straight_line 3
              (particleAt cube (fun _ => 1 / 2) 0) 4 (1 / 2))
    as (_ & _ & Hz); [lra |].
  exact Hz.
Defined.

Lemma coordinate_within_norm (x y z r : R) :
  0 <= r -> x * x + y * y + z * z = r * r -> - r <= x <= r.
Proof. intros Hr Hsum. split; nra. Qed.

Lemma scatterPos_box (u1 u2 u3 : R) :
  0 <= u1 < 1 ->
  let v := scatterPos u1 u2 u3 in
  -22 <= vx v <= 22 /\ -22 <= vy v <= 22 /\ -22 <= vz v <= 22.
Proof.
  intros Hu. cbn zeta. unfold scatterPos. cbn [vx vy vz].
  pose proof (cbrt_range u1 Hu) as Hc.
  set (r := 22 * JsMath.cbrt u1). assert (Hr : 0 <= r <= 22) by (unfold r; lra).
  set (phi := acos (2 * u3 - 1)). set (theta := u2 * 2 * PI).
  assert (Hsum : (r * sin phi * cos theta) * (r * sin phi * cos theta)
                 + (r * sin phi * sin theta) * (r * sin phi * sin theta)
                 + (r * cos phi) * (r * cos phi) = r * r).
  { replace ((r * sin phi * cos theta) * (r * sin phi * cos theta)
             + (r * sin phi * sin theta) * (r * sin phi * sin theta)
             + (r * cos phi) * (r * cos phi))
      with ((r * r)
            * ((sin phi)² * ((sin theta)² + (cos theta)²) + (cos phi)²))
      by (unfold Rsqr; ring).
    rewrite sin2_cos2, Rmult_1_r, sin2_cos2. ring. }
  pose proof (coordinate_within_norm _ _ _ r (proj1 Hr) Hsum) as Hx.
  assert (Hsum' : (r * sin phi * sin theta) * (r * sin phi * sin theta)
                  + (r * sin phi * cos theta) * (r * sin phi * cos theta)
                  + (r * cos phi) * (r * cos phi) = r * r) by lra.
  pose proof (coordinate_within_norm _ _ _ r (proj1 Hr) Hsum') as Hy.
  assert (Hsum'' : (r * cos phi) * (r * cos phi)
                   + (r * sin phi * sin theta) * (r * sin phi * sin theta)
                   + (r * sin phi * cos theta) * (r * sin phi * cos theta)
                   = r * r) by lra.
  pose proof (coordinate_within_norm _ _ _ r (proj1 Hr) Hsum'') as Hz.
  lra.
Qed.

Lemma treePos_box (u4 u5 u6 : R) :
  0 <= u4 < 1 -> 0 <= u5 < 1 ->
  let v := treePos u4 u5 u6 in
  -5.5 <= vx v <= 5.5 /\ -5.5 <= vy v <= 7.5 /\ -5.5 <= vz v <= 5.5.
Proof.
  intros Hu4 Hu5. cbn zeta. unfold treePos. cbn [vx vy vz].
  assert (Hh : 0 <= hNormal u4 < 1) by (apply pow_range; [assumption | lra]).
  pose proof (sqrt_range u5 Hu5) as Hs.
  assert (Hr : 0 <= pileRadius u4 u5 <= 5.5)
    by (unfold pileRadius, radiusAtHeight, maxBaseRadius; nra).
  pose proof (COS_bound (pileAngle u6)). pose proof (SIN_bound (pileAngle u6)).
  unfold treeY, treeHeight. repeat split; nra.
Qed.

Lemma widen (x lo hi lo' hi' : R) :
  lo <= x <= hi -> lo' <= lo -> hi <= hi' -> lo' <= x <= hi'.
Proof. intros. lra. Qed.

Lemma lerp_box (a b t lo hi : R) :
  0 <= t <= 1 -> lo <= a <= hi -> lo <= b <= hi ->
  lo <= a + (b - a) * t <= hi.
Proof. intros Ht Ha Hb. split; nra. Qed.

(** For a blend value in [0, 1], every instance of a generated group is
    inside the box of half-width 22.2 around the origin, at every time. *)
Theorem rendered_position_in_box {E : External} (count : Z) type rng :
  Rand.uniform rng ->
  exists ps,
    generateParticles count type rng = Returned ps /\
    forall i p elapsedTime t, nth_error ps i = Some p -> 0 <= t <= 1 ->
      let v := position (particleTransform elapsedTime t p i) in
      -22.2 <= vx v <= 22.2 /\ -22.2 <= vy v <= 22.2 /\
      -22.2 <= vz v <= 22.2.
Proof.
  intros Hrng.
  destruct (generateParticles_all
              (fun i p =>
                 forall elapsedTime t, 0 <= t <= 1 ->
                 let v := position (particleTransform elapsedTime t p i) in
                 -22.2 <= vx v <= 22.2 /\ -22.2 <= vy v <= 22.2 /\
                 -22.2 <= vz v <= 22.2)
              count type rng) as (ps & Hgen & _ & Hall).
  - intros i elapsedTime t Ht. cbn zeta.
    destruct (position_bounds_aux elapsedTime
                (particleAt type rng (13 * i)) i t Ht) as (Hx & Hy & Hz).
    rewrite particleAt_fields in *.
    cbn [particleTransform position instancePosition lerpVectors
           scatterPosition treePosition vx vy vz] in *.
    destruct (scatterPos_box (rng (13 * i)%nat) (rng (13 * i + 1)%nat)
                (rng (13 * i + 2)%nat) (Hrng _)) as (Hsx & Hsy & Hsz).
    destruct (treePos_box (rng (13 * i + 3)%nat) (rng (13 * i + 4)%nat)
                (rng (13 * i + 5)%nat) (Hrng _) (Hrng _)) as (Htx & Hty & Htz).
    cbn zeta in Hsx, Hsy, Hsz, Htx, Hty, Htz.
    pose proof (lerp_box _ _ t (-22) 22 Ht Hsx
                  (widen _ _ _ (-22) 22 Htx ltac:(lra) ltac:(lra))) as Hlx.
    pose proof (lerp_box _ _ t (-22) 22 Ht Hsy
                  (widen _ _ _ (-22) 22 Hty ltac:(lra) ltac:(lra))) as Hly.
    pose proof (lerp_box _ _ t (-22) 22 Ht Hsz
                  (widen _ _ _ (-22) 22 Htz ltac:(lra) ltac:(lra))) as Hlz.
    lra.
  - exists ps. split; [assumption |].
    intros i p elapsedTime t Hnth Ht. exact (Hall i p Hnth elapsedTime t Ht).
Qed.

Lemma rendered_position_in_box_witness :
  exists ps,
    generateParticles 2 sphere (fun _ => 1 / 2) = Returned ps /\
    forall i p elapsedTime t, nth_error ps i = Some p -> 0 <= t <= 1 ->
      let v :=
        position
          (particleTransform (E := SpecDamp.external) elapsedTime t p i) in
      -22.2 <= vx v <= 22.2 /\ -22.2 <= vy v <= 22.2 /\
      -22.2 <= vz v <= 22.2.
Proof.
  apply (rendered_position_in_box (E := SpecDamp.external)
           2 sphere (fun _ => 1 / 2)).
  intros k. lra.
Defined.

(** ** Runs of frames *)

Section RunFacts.

Context {E : External}.

Lemma totalDelta_cons tick ticks :
  totalDelta (tick :: ticks) = tickDelta tick + totalDelta ticks.
Proof. reflexivity. Qed.

Lemma treeFrames_cons tick ticks (s : TreeScene E) :
  treeFrames (tick :: ticks) s =
  treeFrames ticks
    (treeFrame (tickState tick) (tickElapsedTime tick) (tickDelta tick) s).
Proof. reflexivity. Qed.

Lemma starFrames_cons tick ticks (s : StarScene E) :
  starFrames (tick :: ticks) s =
  starFrames ticks
    (starFrame (tickState tick) (tickElapsedTime tick) (tickDelta tick) s).
Proof. reflexivity. Qed.

(** Over any run of frames, each group of the tree turns by 0.05 times the
    time that has passed, however that time is cut into frames; a group that
    is not mounted stays so, and the particle data is never changed. *)
Theorem treeFrames_spin (ticks : list Tick) (s : TreeScene E) :
  option_map rotation_y (sphereRef (treeFrames ticks s)) =
    option_map (fun m => rotation_y m + totalDelta ticks * 0.05)
      (sphereRef s) /\
  option_map rotation_y (cubeRef (treeFrames ticks s)) =
    option_map (fun m => rotation_y m + totalDelta ticks * 0.05)
      (cubeRef s) /\
  option_map rotation_y (gemRef (treeFrames ticks s)) =
    option_map (fun m => rotation_y m + totalDelta ticks * 0.05)
      (gemRef s) /\
  spheres (treeFrames ticks s) = spheres s /\
  cubes (treeFrames ticks s) = cubes s /\
  gems (treeFrames ticks s) = gems s.
Proof.
  revert s. induction ticks as [| tick ticks IH]; intros s.
  - cbn [treeFrames fold_left totalDelta fold_right].
    repeat split;
      match goal with
      | |- option_map _ ?o = _ =>
          destruct o; simpl; [apply f_equal; ring | reflexivity]
      | _ => reflexivity
      end.
  - rewrite treeFrames_cons.
    destruct (IH (treeFrame (tickState tick) (tickElapsedTime tick)
                    (tickDelta tick) s))
      as (Hs & Hc & Hg & Hds & Hdc & Hdg).
    rewrite Hs, Hc, Hg, Hds, Hdc, Hdg.
    rewrite totalDelta_cons. unfold treeFrame, animateMesh.
    cbn [sphereRef cubeRef gemRef spheres cubes gems].
    repeat split; try reflexivity;
      match goal with
      | |- option_map _ (match ?o with _ => _ end) = _ =>
          destruct o; simpl; [apply f_equal; ring | reflexivity]
      end.
Qed.

(** Once the star is mounted it stays mounted, and over any run of frames
    it turns by 0.8 times the time that has passed. *)
Theorem starFrames_spin (ticks : list Tick) (s : StarScene E) (star : Star) :
  starRef s = Some star ->
  option_map starRotation_y (starRef (starFrames ticks s)) =
  Some (starRotation_y star + totalDelta ticks * 0.8).
Proof.
  revert s star. induction ticks as [| tick ticks IH]; intros s star Hstar.
  - cbn [starFrames fold_left totalDelta fold_right]. rewrite Hstar. simpl.
    f_equal. ring.
  - rewrite starFrames_cons.
    rewrite (IH _ {| position_y :=
                       lerp 15 8.2
                         (current (damp (starBlendRef s)
                                     (targetBlend (tickState tick)) 1.0
                                     (tickDelta tick)))
                       + sin (tickElapsedTime tick * 2) * 0.05;
                     starScale :=
                       lerp 0 1.2
                         (current (damp (starBlendRef s)
                                     (targetBlend (tickState tick)) 1.0
                                     (tickDelta tick)));
                     starRotation_y :=
                       starRotation_y star + tickDelta tick * 0.8 |}).
    + rewrite totalDelta_cons. cbn [starRotation_y]. apply f_equal. ring.
    + unfold starFrame. rewrite Hstar. reflexivity.
Qed.

End RunFacts.

Lemma starFrames_spin_witness :
  option_map starRotation_y
    (starRef (starFrames [mkTick TREE_SHAPE 1 (1 / 4); mkTick SCATTERED 2 1]
                SpecDamp.starAtRest)) =
  Some (2 + totalDelta [mkTick TREE_SHAPE 1 (1 / 4); mkTick SCATTERED 2 1]
            * 0.8).
Proof.
  apply (starFrames_spin (E := SpecDamp.external)
           [mkTick TREE_SHAPE 1 (1 / 4); mkTick SCATTERED 2 1]
           SpecDamp.starAtRest (mkStar 15 0 2) eq_refl).
Defined.


(** ** The star *)

(** When the star is mounted, the glow that its frame gives a mounted
    material is in [0.4, 1.2], whatever the blend value; and when the blend
    value after the frame's damping is in [0, 1], the star's scale is in
    [0, 1.2] and its height in [8.15, 15.05]. *)
Theorem star_ranges {E : External} state (elapsedTime delta : R)
  (s : StarScene E) (star : Star) :
  starRef s = Some star ->
  exists star',
    starRef (starFrame state elapsedTime delta s) = Some star' /\
    match materialRef s with
    | Some _ =>
        exists glow,
          materialRef (starFrame state elapsedTime delta s) = Some glow /\
          0.4 <= glow <= 1.2
    | None => materialRef (starFrame state elapsedTime delta s) = None
    end /\
    (0 <= current (damp (starBlendRef s) (targetBlend state) 1.0 delta) <= 1 ->
     0 <= starScale star' <= 1.2 /\
     8.15 <= position_y star' <= 15.05).
Proof.
  intros Hstar. unfold starFrame. rewrite Hstar.
  eexists. split; [reflexivity |].
  cbn [starScale position_y materialRef]. unfold lerp.
  pose proof (SIN_bound (elapsedTime * 2)) as Hsin.
  split.
  - destruct (materialRef s); [| reflexivity].
    eexists. split; [reflexivity | lra].
  - intros Ht. split; lra.
Qed.

Lemma star_ranges_witness :
  exists star',
    starRef (starFrame SCATTERED 3 (1 / 60) SpecDamp.starLit)
      = Some star' /\
    (exists glow,
       materialRef (starFrame SCATTERED 3 (1 / 60) SpecDamp.starLit)
         = Some glow /\
       0.4 <= glow <= 1.2) /\
    0 <= starScale star' <= 1.2 /\
    8.15 <= position_y star' <= 15.05.
Proof.
  destruct (star_ranges SCATTERED 3 (1 / 60) SpecDamp.starLit
              (mkStar 15 0 2) eq_refl)
    as (star' & Href & Hglow & Hrange).
  exists star'. split; [exact Href |]. split; [exact Hglow |].
  apply Hrange. cbn. unfold SpecDamp.advance. lra.
Defined.

(** In the tree shape (blend value 1 after damping, and in the tree's
    frame), the centre of the mounted star is at least 0.65 above the centre
    of every instance of a generated group, each in the coordinates of its
    own component. *)
Theorem star_above_tree {E : External} (count : Z) type rng state
  (elapsedTime delta : R) (s : StarScene E) (star : Star) :
  Rand.uniform rng ->
  starRef s = Some star ->
  current (damp (starBlendRef s) (targetBlend state) 1.0 delta) = 1 ->
  exists ps star',
    generateParticles count type rng = Returned ps /\
    starRef (starFrame state elapsedTime delta s) = Some star' /\
    forall i p elapsedTime', nth_error ps i = Some p ->
      vy (position (particleTransform elapsedTime' 1 p i)) + 0.65
      <= position_y star'.
Proof.
  intros Hrng Hstar Ht.
  destruct (generateParticles_all
              (fun i p =>
                 forall elapsedTime',
                 vy (position (particleTransform elapsedTime' 1 p i)) <= 7.5)
              count type rng) as (ps & Hgen & _ & Hall).
  - intros i elapsedTime'. rewrite particleAt_fields.
    cbn [particleTransform position instancePosition lerpVectors noiseY
           scatterPosition treePosition speed vy].
    destruct (treePos_box (rng (13 * i + 3)%nat) (rng (13 * i + 4)%nat)
                (rng (13 * i + 5)%nat) (Hrng _) (Hrng _)) as (_ & Hty & _).
    cbn zeta in Hty. unfold noiseY. cbn [speed]. lra.
  - exists ps. unfold starFrame. rewrite Hstar. eexists.
    split; [assumption |]. split; [reflexivity |].
    intros i p elapsedTime' Hnth. cbn [position_y]. rewrite Ht.
    unfold lerp. pose proof (SIN_bound (elapsedTime * 2)) as Hsin.
    pose proof (Hall i p Hnth elapsedTime'). lra.
Qed.

Lemma star_above_tree_witness :
  exists ps star',
    generateParticles 2 sphere (fun _ => 1 / 2) = Returned ps /\
    starRef (starFrame TREE_SHAPE 3 (1 / 60)
               (mkStarScene (E := SpecDamp.external) 1
                  (Some (mkStar 8.2 1.2 0)) None)) = Some star' /\
    forall i p elapsedTime', nth_error ps i = Some p ->
      vy (position
            (particleTransform (E := SpecDamp.external) elapsedTime' 1 p i))
      + 0.65 <= position_y star'.
Proof.
  apply (star_above_tree (E := SpecDamp.external) 2 sphere (fun _ => 1 / 2)
           TREE_SHAPE 3 (1 / 60)
           (mkStarScene (E := SpecDamp.external) 1
              (Some (mkStar 8.2 1.2 0)) None)
           (mkStar 8.2 1.2 0)).
  - intros k. lra.
  - reflexivity.
  - cbn. unfold SpecDamp.advance. lra.
Defined.

(** ** Periods *)

Lemma sin_double_shift (x c : R) : sin ((x + PI) * 2 + c) = sin (x * 2 + c).
Proof.
  replace ((x + PI) * 2 + c) with ((x * 2 + c) + 2 * PI) by ring.
  rewrite sin_plus, cos_2PI, sin_2PI. ring.
Qed.

(** The breathing of the instances, the bob of the star and its glow repeat
    every pi seconds: the scale written for an instance, and the whole
    result of the star's frame, are the same at [elapsedTime + pi] as at
    [elapsedTime]. *)
Theorem breathing_and_bob_period {E : External} state
  (elapsedTime delta t : R) (particle : Particle) (i : nat)
  (s : StarScene E) :
  scaleScalar (particleTransform (elapsedTime + PI) t particle i) =
    scaleScalar (particleTransform elapsedTime t particle i) /\
  starFrame state (elapsedTime + PI) delta s =
    starFrame state elapsedTime delta s.
Proof.
  split.
  - cbn [particleTransform scaleScalar]. unfold instanceScale, breathe.
    now rewrite sin_double_shift.
  - unfold starFrame.
    replace (sin ((elapsedTime + PI) * 2)) with (sin (elapsedTime * 2));
      [reflexivity |].
    pose proof (sin_double_shift elapsedTime 0) as H.
    rewrite !Rplus_0_r in H. now rewrite H.
Qed.

(** ** The star's outline *)

Lemma INR_points : INR StarGeometry.points = 5.
Proof. unfold StarGeometry.points. simpl. lra. Qed.

Lemma vertex_radius_even (i : nat) :
  (if (i mod 2 =? 0)%nat then StarGeometry.outerRadius
   else StarGeometry.innerRadius)
  = if Nat.even i then 1 else 0.5.
Proof.
  unfold StarGeometry.outerRadius, StarGeometry.innerRadius.
  destruct (Nat.even i) eqn:He.
  - apply Nat.even_spec in He. destruct He as [k ->].
    replace (2 * k)%nat with (0 + k * 2)%nat by lia.
    now rewrite Nat.Div0.mod_add.
  - assert (Ho : Nat.odd i = true)
      by (rewrite <- Nat.negb_even, He; reflexivity).
    apply Nat.odd_spec in Ho. destruct Ho as [k ->].
    replace (2 * k + 1)%nat with (1 + k * 2)%nat by lia.
    now rewrite Nat.Div0.mod_add.
Qed.

(** The outline of the star is one closed path of ten points that starts at
    (1, 0); the points alternate between the circle of radius 1 (even
    iterations) and the circle of radius 0.5 (odd iterations). *)
Theorem star_outline :
  StarGeometry.shape =
    StarGeometry.MoveTo 1 0
    :: map (fun i => StarGeometry.LineTo (fst (StarGeometry.vertex i))
                       (snd (StarGeometry.vertex i)))
         (seq 1 9)
    ++ [StarGeometry.ClosePath] /\
  forall i,
    sqrt (fst (StarGeometry.vertex i) * fst (StarGeometry.vertex i)
          + snd (StarGeometry.vertex i) * snd (StarGeometry.vertex i))
    = if Nat.even i then 1 else 0.5.
Proof.
  split.
  - unfold StarGeometry.shape, StarGeometry.points.
    cbn [Nat.mul Nat.add seq map app Nat.eqb].
    f_equal.
    unfold StarGeometry.vertex, StarGeometry.outerRadius.
    cbn [Nat.modulo Nat.divmod fst snd Nat.eqb Nat.sub INR].
    replace (0 * PI / INR StarGeometry.points) with 0
      by (unfold Rdiv; ring).
    rewrite cos_0, sin_0. f_equal; ring.
  - intros i. unfold StarGeometry.vertex. cbn [fst snd].
    rewrite vertex_radius_even.
    set (a := INR i * PI / INR StarGeometry.points).
    set (r := if Nat.even i then 1 else 0.5).
    assert (Hr : 0 <= r) by (unfold r; destruct (Nat.even i); lra).
    replace (cos a * r * (cos a * r) + sin a * r * (sin a * r))
      with ((r * cos a) * (r * cos a) + (r * sin a) * (r * sin a)) by ring.
    now apply horizontal_distance.
Qed.

(** The outline has the five-fold symmetry of a star: the point of iteration
    [i + 2] is the point of iteration [i] turned by a fifth of a turn. *)
Theorem star_five_fold (i : nat) :
  let (x, y) := StarGeometry.vertex i in
  StarGeometry.vertex (i + 2) =
    (x * cos (2 * PI / 5) - y * sin (2 * PI / 5),
     x * sin (2 * PI / 5) + y * cos (2 * PI / 5)).
Proof.
  unfold StarGeometry.vertex.
  replace ((i + 2) mod 2)%nat with (i mod 2)%nat
    by (replace (i + 2)%nat with (i + 1 * 2)%nat by lia;
        now rewrite Nat.Div0.mod_add).
  rewrite INR_points, plus_INR.
  replace ((INR i + INR 2) * PI / 5) with (INR i * PI / 5 + 2 * PI / 5)
    by (simpl; field).
  rewrite cos_plus, sin_plus. f_equal; ring.
Qed.

(** The outline is symmetric about the x axis: for [1 <= i <= 9] the point
    of iteration [10 - i] is the mirror image of the point of iteration
    [i]. *)
Theorem star_mirror (i : nat) :
  (1 <= i <= 9)%nat ->
  StarGeometry.vertex (10 - i) =
    (fst (StarGeometry.vertex i), - snd (StarGeometry.vertex i)).
Proof.
  intros Hi. unfold StarGeometry.vertex. cbn [fst snd].
  rewrite !vertex_radius_even.
  replace (Nat.even (10 - i)) with (Nat.even i)
    by (do 10 (destruct i as [| i]; [reflexivity || lia |]); lia).
  rewrite INR_points, minus_INR by lia.
  replace ((INR 10 - INR i) * PI / 5) with (2 * PI - INR i * PI / 5)
    by (simpl; field).
  rewrite cos_minus, sin_minus, cos_2PI, sin_2PI. f_equal; ring.
Qed.

Lemma star_mirror_witness :
  StarGeometry.vertex (10 - 3) =
    (fst (StarGeometry.vertex 3), - snd (StarGeometry.vertex 3)).
Proof. apply (star_mirror 3). lia. Defined.

(** ** The toggle *)

(** The state starts scattered and each press of the toggle flips it: after
    [n] presses it is the tree shape exactly when [n] is odd, and the blend
    target of the frames goes from [b] to [1 - b] at each press. *)
Theorem afterToggles_parity (n : nat) :
  afterToggles n = (if Nat.even n then SCATTERED else TREE_SHAPE) /\
  targetBlend (afterToggles n) = (if Nat.even n then 0 else 1) /\
  targetBlend (afterToggles (S n)) = 1 - targetBlend (afterToggles n).
Proof.
  assert (Hn : afterToggles n = if Nat.even n then SCATTERED else TREE_SHAPE).
  { unfold afterToggles, initialTreeState.
    induction n as [| n IH]; [reflexivity |].
    rewrite Nat.iter_succ, IH, Nat.even_succ, <- Nat.negb_even.
    destruct (Nat.even n); reflexivity. }
  split; [exact Hn |]. split.
  - rewrite Hn. destruct (Nat.even n); reflexivity.
  - unfold afterToggles in *. rewrite Nat.iter_succ, Hn.
    destruct (Nat.even n); simpl; ring.
Qed.
